(** * FfReader: a shallow embedding of the MQDB (.ff) container reader

    The development follows [FfReader.hpp] and its implementation file.
    Modelling conventions:

    - [uint32_t] values are [Z] in the range [0, 2^32); they only ever arise
      by decoding bytes, so the range holds by construction.  A little-endian
      host is assumed, as [readUint32] reinterprets raw bytes.
    - [size_t] is taken to be 64 bits wide, so that a 32-bit value plus
      [sizeof(MqrcHeader)] does not wrap; where the source narrows to
      [uint32_t] the reduction modulo [2^32] is written out.
    - [std::ifstream] is a read position with a fail flag over the immutable
      list of bytes of the file.  A failed stream ignores further reads and
      seeks.
    - Reading an object that a short read left indeterminate, and reading
      outside a buffer, have no defined behaviour in C++: the model stops
      with the outcome [Undefined].  Exceptions are the outcome [Throw].
    - Memory allocation is assumed to succeed. *)

From Stdlib Require Import ZArith List Lia Bool String Sorted.
From Stdlib Require Import Strings.Byte.
From stdpp Require Import base option list gmap.

Local Open Scope Z_scope.

(** ** Outcomes of a computation *)

(** The [std::runtime_error]s thrown by the reader, one constructor per
    message. *)
Inductive error : Type :=
  | CouldNotOpen        (* "Could not open MQDB file" *)
  | NotMqdbFile         (* "Not a MQDB file" *)
  | WrongVersion        (* "Wrong MQDB file version" *)
  | NonUniqueIds        (* "MQDB ToC contains records with non-unique ids" *)
  | NoNamesList         (* "Could not find MQDB names list ToC record" *)
  | WrongMqrcSignature. (* "Read wrong MQRC signature while processing names list" *)

Definition what (e : error) : string :=
  match e with
  | CouldNotOpen => "Could not open MQDB file"
  | NotMqdbFile => "Not a MQDB file"
  | WrongVersion => "Wrong MQDB file version"
  | NonUniqueIds => "MQDB ToC contains records with non-unique ids"
  | NoNamesList => "Could not find MQDB names list ToC record"
  | WrongMqrcSignature => "Read wrong MQRC signature while processing names list"
  end%string.

Inductive outcome (A : Type) : Type :=
  | Ok (a : A)
  | Throw (e : error)
  | Undefined
  | OutOfFuel.

Arguments Ok {A} a.
Arguments Throw {A} e.
Arguments Undefined {A}.
Arguments OutOfFuel {A}.

Definition outcome_bind {A B} (f : A → outcome B) (m : outcome A) : outcome B :=
  match m with
  | Ok a => f a
  | Throw e => Throw e
  | Undefined => Undefined
  | OutOfFuel => OutOfFuel
  end.

#[export] Instance outcome_mbind : MBind outcome := @outcome_bind.
#[export] Instance outcome_mret : MRet outcome := @Ok.

(** Use of a value that may be indeterminate. *)
Definition defined {A} (o : option A) : outcome A :=
  match o with
  | Some a => Ok a
  | None => Undefined
  end.

(** ** Bytes and 32-bit values *)

Definition byte_val (b : byte) : Z := Z.of_N (Byte.to_N b).

Definition zero_byte : byte := x00.

Definition is_zero (b : byte) : bool := byte_val b =? 0.

(** Little-endian value of up to four bytes; missing high bytes count as
    zero. *)
Fixpoint le32 (bs : list byte) : Z :=
  match bs with
  | [] => 0
  | b :: bs' => byte_val b + 256 * le32 bs'
  end.

(** A 32-bit field at byte offset [o] of an object of which the bytes [raw]
    have been written; [None] when part of the field is indeterminate. *)
Definition field32 (raw : list byte) (o : nat) : option Z :=
  if (o + 4 <=? length raw)%nat then Some (le32 (take 4 (drop o raw))) else None.

(** [FFSIGNATURE(a, b, c, d)] *)
Definition FFSIGNATURE (a b c d : byte) : Z :=
  Z.lor (Z.lor (Z.lor (Z.shiftl (byte_val d) 24) (Z.shiftl (byte_val c) 16))
               (Z.shiftl (byte_val b) 8)) (byte_val a).

Definition mqdbFileSignature : Z := FFSIGNATURE "M" "Q" "D" "B".
Definition mqdbFileVersion : Z := 9.
Definition mqrcSignature : Z := FFSIGNATURE "M" "Q" "R" "C".

Definition bytes_of_string (s : string) : list byte := list_byte_of_string s.

Definition indexOptRecordName : list byte := bytes_of_string "-INDEX.OPT".
Definition imagesOptRecordName : list byte := bytes_of_string "-IMAGES.OPT".

Definition paletteSize : Z := 11 + 1024.

(** [std::numeric_limits<RecordId>::max()] *)
Definition RecordId_max : Z := 2 ^ 32 - 1.

Definition sizeof_MqdbHeader : nat := 24.
Definition sizeof_TocRecord : nat := 16.
Definition sizeof_MqrcHeader : nat := 28.

(** [SpecialId::NameList] *)
Definition NameList : Z := 2.

(** The characters of a C string starting at the head of [l]: everything
    before the first zero byte, or [None] when [l] holds no terminator. *)
Fixpoint cstring (l : list byte) : option (list byte) :=
  match l with
  | [] => None
  | b :: l' => if is_zero b then Some [] else cons b <$> cstring l'
  end.

(** ** The file stream *)

Record ifstream : Type := { gpos : Z; failbit : bool }.

Definition stream_open : ifstream := {| gpos := 0; failbit := false |}.

(** [file.read(buf, n)]: the bytes stored into [buf] and the new stream.
    Fewer than [n] bytes are stored when the file ends first, and the stream
    fails. *)
Definition stream_read (file : list byte) (n : nat) (s : ifstream)
  : list byte * ifstream :=
  if failbit s then ([], s)
  else
    let got := take n (drop (Z.to_nat (gpos s)) file) in
    (got, {| gpos := gpos s + Z.of_nat (length got);
             failbit := (length got <? n)%nat |}).

Definition seekg (p : Z) (s : ifstream) : ifstream :=
  if failbit s then s
  else if p <? 0 then {| gpos := gpos s; failbit := true |}
  else {| gpos := p; failbit := false |}.

Definition tellg (s : ifstream) : Z :=
  if failbit s then -1 else gpos s.

(** [readUint32(std::ifstream&)]: the value starts as zero. *)
Definition readUint32_file (file : list byte) (s : ifstream) : Z * ifstream :=
  let '(got, s') := stream_read file 4 s in (le32 got, s').

(** [std::vector<char> contents(n, '\0'); file.read(&contents[0], n)] *)
Definition read_vector (file : list byte) (n : Z) (s : ifstream)
  : list byte * ifstream :=
  let '(got, s') := stream_read file (Z.to_nat n) s in
  (got ++ replicate (Z.to_nat n - length got) zero_byte, s').

(** [readUint32(const char*, size_t&)]: the value and the adjusted offset. *)
Definition readUint32 (contents : list byte) (byteOffset : Z) : outcome (Z * Z) :=
  if (0 <=? byteOffset) && (byteOffset + 4 <=? Z.of_nat (length contents))
  then Ok (le32 (take 4 (drop (Z.to_nat byteOffset) contents)), byteOffset + 4)
  else Undefined.

(** The C string at [&contents[byteOffset]], as [strlen] and the
    [std::string] constructor see it. *)
Definition cstring_at (contents : list byte) (byteOffset : Z) : outcome (list byte) :=
  if 0 <=? byteOffset
  then defined (cstring (drop (Z.to_nat byteOffset) contents))
  else Undefined.

(** ** [std::map<std::string, V>]: entries in ascending key order *)

Fixpoint str_compare (a b : list byte) : comparison :=
  match a, b with
  | [], [] => Eq
  | [], _ :: _ => Lt
  | _ :: _, [] => Gt
  | x :: a', y :: b' =>
      match byte_val x ?= byte_val y with
      | Eq => str_compare a' b'
      | c => c
      end
  end.

Definition str_lt (a b : list byte) : Prop := str_compare a b = Lt.

Definition strmap (V : Type) : Type := list (list byte * V).

Fixpoint strmap_find {V} (k : list byte) (m : strmap V) : option V :=
  match m with
  | [] => None
  | (k', v) :: m' =>
      match str_compare k k' with
      | Eq => Some v
      | Lt => None
      | Gt => strmap_find k m'
      end
  end.

(** [m[k] = v] *)
Fixpoint strmap_insert {V} (k : list byte) (v : V) (m : strmap V) : strmap V :=
  match m with
  | [] => [(k, v)]
  | (k', v') :: m' =>
      match str_compare k k' with
      | Eq => (k, v) :: m'
      | Lt => (k, v) :: m
      | Gt => (k', v') :: strmap_insert k v m'
      end
  end.

(** ** Data structures of [FfReader.hpp] *)

Record TocRecord : Type := {
  recordId : Z;
  size : Z;
  sizeAllocated : Z;
  offset : Z
}.

(** A [TocRecord] from the 16 bytes read over it. *)
Definition TocRecord_of_bytes (raw : list byte) : option TocRecord :=
  i ← field32 raw 0;
  sz ← field32 raw 4;
  sa ← field32 raw 8;
  o ← field32 raw 12;
  Some {| recordId := i; size := sz; sizeAllocated := sa; offset := o |}.

Record ImagePart : Type := {
  sourceX : Z; sourceY : Z;
  targetX : Z; targetY : Z;
  part_width : Z; part_height : Z
}.

Record ImageFrame : Type := {
  parts : list ImagePart;
  frame_name : list byte;
  frame_width : Z;
  frame_height : Z
}.

Record PackedImage : Type := {
  palette : list byte;
  frames : list ImageFrame
}.

Definition PackedImageInfo : Type := Z * Z.

Record ImageIndices : Type := {
  ids : list Z;
  image_names : list (list byte);
  image_packedInfo : list PackedImageInfo
}.

Record AnimationIndices : Type := {
  animation_names : list (list byte);
  animation_packedInfo : list PackedImageInfo
}.

Record IndexData : Type := {
  images : ImageIndices;
  animations : AnimationIndices
}.

Record FfReader : Type := {
  tableOfContents : gmap Z TocRecord;
  recordNames : strmap Z;
  indexData : IndexData;
  packedImages : gmap Z PackedImage;
  ffFilePath : string
}.

Definition empty_IndexData : IndexData :=
  {| images := {| ids := []; image_names := []; image_packedInfo := [] |};
     animations := {| animation_names := []; animation_packedInfo := [] |} |}.

(** The members as default-constructed before the constructor body runs. *)
Definition FfReader_init (path : string) : FfReader :=
  {| tableOfContents := ∅; recordNames := []; indexData := empty_IndexData;
     packedImages := ∅; ffFilePath := path |}.

Definition set_tableOfContents (t : gmap Z TocRecord) (r : FfReader) : FfReader :=
  {| tableOfContents := t; recordNames := recordNames r; indexData := indexData r;
     packedImages := packedImages r; ffFilePath := ffFilePath r |}.

Definition set_recordNames (n : strmap Z) (r : FfReader) : FfReader :=
  {| tableOfContents := tableOfContents r; recordNames := n; indexData := indexData r;
     packedImages := packedImages r; ffFilePath := ffFilePath r |}.

Definition set_packedImages (p : gmap Z PackedImage) (r : FfReader) : FfReader :=
  {| tableOfContents := tableOfContents r; recordNames := recordNames r;
     indexData := indexData r; packedImages := p; ffFilePath := ffFilePath r |}.

(** ** Lookups *)

(** [findTocRecord(RecordId)] *)
Definition findTocRecord (r : FfReader) (id : Z) : option TocRecord :=
  tableOfContents r !! id.

(** [findTocRecord(const std::string&)] *)
Definition findTocRecord_name (r : FfReader) (recordName : list byte)
  : option TocRecord :=
  match strmap_find recordName (recordNames r) with
  | Some id => findTocRecord r id
  | None => None
  end.

(** ** [checkFileHeader] *)

Definition checkFileHeader (file : list byte) (s : ifstream) : outcome ifstream :=
  let '(header, s1) := stream_read file sizeof_MqdbHeader s in
  signature ← defined (field32 header 0);
  if negb (signature =? mqdbFileSignature) then Throw NotMqdbFile
  else
    version ← defined (field32 header 8);
    if negb (version =? mqdbFileVersion) then Throw WrongVersion
    else Ok s1.

(** ** [readTableOfContents] *)

(** The [for] loop, with [n] iterations left. *)
Fixpoint readTableOfContents_loop (file : list byte) (n : nat)
    (toc : gmap Z TocRecord) (s : ifstream) : outcome (gmap Z TocRecord * ifstream) :=
  match n with
  | O => Ok (toc, s)
  | S n' =>
      let '(raw, s1) := stream_read file sizeof_TocRecord s in
      id ← defined (field32 raw 0);
      match toc !! id with
      | Some _ => Throw NonUniqueIds
      | None =>
          record ← defined (TocRecord_of_bytes raw);
          readTableOfContents_loop file n' (<[id := record]> toc) s1
      end
  end.

Definition readTableOfContents (file : list byte) (r : FfReader) (s : ifstream)
  : outcome (FfReader * ifstream) :=
  let '(tocOffset, s1) := readUint32_file file s in
  let s2 := seekg tocOffset s1 in
  let '(entriesTotal, s3) := readUint32_file file s2 in
  '(toc, s4) ← readTableOfContents_loop file (Z.to_nat entriesTotal)
                  (tableOfContents r) s3;
  Ok (set_tableOfContents toc r, s4).

(** ** [readNameList] *)

(** [name[255] = '\0'; std::string nameString = name;] for a [char name[256]]
    of which the bytes [raw] were read. *)
Definition name_string (raw : list byte) : option (list byte) :=
  match cstring (take 255 raw) with
  | Some str => Some str
  | None => if (255 <=? length raw)%nat then Some (take 255 raw) else None
  end.

Fixpoint readNameList_loop (file : list byte) (r : FfReader) (n : nat)
    (names : strmap Z) (s : ifstream) : outcome (strmap Z * ifstream) :=
  match n with
  | O => Ok (names, s)
  | S n' =>
      let '(name, s1) := stream_read file 256 s in
      let '(id, s2) := readUint32_file file s1 in
      match findTocRecord r id with
      | None => readNameList_loop file r n' names s2
      | Some tocRecord =>
          let readPosition := tellg s2 in
          let s3 := seekg (offset tocRecord) s2 in
          let '(recordHeader, s4) := stream_read file sizeof_MqrcHeader s3 in
          signature ← defined (field32 recordHeader 0);
          if negb (signature =? mqrcSignature) then Throw WrongMqrcSignature
          else
            let s5 := seekg readPosition s4 in
            used ← defined (field32 recordHeader 20);
            if used =? 0 then readNameList_loop file r n' names s5
            else
              nameString ← defined (name_string name);
              match strmap_find nameString names with
              | Some _ => readNameList_loop file r n' names s5
              | None =>
                  readNameList_loop file r n' (strmap_insert nameString id names) s5
              end
      end
  end.

Definition readNameList (file : list byte) (r : FfReader) (s : ifstream)
  : outcome (FfReader * ifstream) :=
  match findTocRecord r NameList with
  | None => Throw NoNamesList
  | Some namesList =>
      let s1 := seekg (offset namesList + Z.of_nat sizeof_MqrcHeader) s in
      let '(namesTotal, s2) := readUint32_file file s1 in
      '(names, s3) ← readNameList_loop file r (Z.to_nat namesTotal)
                        (recordNames r) s2;
      Ok (set_recordNames names r, s3)
  end.

(** ** [readIndex] *)

Definition push_image (im : ImageIndices) (id : Z) (name : list byte)
    (info : PackedImageInfo) : ImageIndices :=
  {| ids := ids im ++ [id];
     image_names := image_names im ++ [name];
     image_packedInfo := image_packedInfo im ++ [info] |}.

Definition push_animation (an : AnimationIndices) (name : list byte)
    (info : PackedImageInfo) : AnimationIndices :=
  {| animation_names := animation_names an ++ [name];
     animation_packedInfo := animation_packedInfo an ++ [info] |}.

(** One decoded entry of the index payload, and the offset after it. *)
Definition readIndex_entry (contents : list byte) (byteOffset : Z)
  : outcome (Z * list byte * Z * Z * Z) :=
  '(id, byteOffset) ← readUint32 contents byteOffset;
  name ← cstring_at contents byteOffset;
  let nameLength := Z.of_nat (length name) + 1 in
  let byteOffset := byteOffset + nameLength in
  '(offset, byteOffset) ← readUint32 contents byteOffset;
  '(size, byteOffset) ← readUint32 contents byteOffset;
  Ok (id, name, offset, size, byteOffset).

(** The two branches of the loop body.  [images] and [animations] are
    declared by value in the source: each is a copy of the member, and the
    copy is destroyed at the end of its block. *)
Definition readIndex_store (r : FfReader) (id : Z) (entryName : list byte)
    (offset size : Z) : FfReader :=
  if negb (id =? RecordId_max) then
    let images := images (indexData r) in
    let images := push_image images id entryName (offset, size) in
    r
  else
    let animations := animations (indexData r) in
    let animations := push_animation animations entryName (offset, size) in
    r.

Fixpoint readIndex_loop (contents : list byte) (n : nat) (byteOffset : Z)
    (r : FfReader) : outcome FfReader :=
  match n with
  | O => Ok r
  | S n' =>
      '(id, name, offset, size, byteOffset) ← readIndex_entry contents byteOffset;
      readIndex_loop contents n' byteOffset (readIndex_store r id name offset size)
  end.

Definition readIndex (file : list byte) (r : FfReader) (s : ifstream)
  : outcome (FfReader * ifstream) :=
  match findTocRecord_name r indexOptRecordName with
  | None => Ok (r, s)
  | Some record =>
      let s1 := seekg (offset record + Z.of_nat sizeof_MqrcHeader) s in
      let '(contents, s2) := read_vector file (size record) s1 in
      '(total, byteOffset) ← readUint32 contents 0;
      r' ← readIndex_loop contents (Z.to_nat total) byteOffset r;
      Ok (r', s2)
  end.

(** ** [readImages] *)

(** The six fields of one part. *)
Definition readImages_part (contents : list byte) (byteOffset : Z)
  : outcome (ImagePart * Z) :=
  '(sourceX, byteOffset) ← readUint32 contents byteOffset;
  '(sourceY, byteOffset) ← readUint32 contents byteOffset;
  '(targetX, byteOffset) ← readUint32 contents byteOffset;
  '(targetY, byteOffset) ← readUint32 contents byteOffset;
  '(partWidth, byteOffset) ← readUint32 contents byteOffset;
  '(partHeight, byteOffset) ← readUint32 contents byteOffset;
  Ok ({| sourceX := sourceX; sourceY := sourceY;
         targetX := targetX; targetY := targetY;
         part_width := partWidth; part_height := partHeight |}, byteOffset).

(** The loop over [j], with [n] parts left. *)
Fixpoint readImages_parts (contents : list byte) (n : nat) (byteOffset : Z)
    (acc : list ImagePart) : outcome (list ImagePart * Z) :=
  match n with
  | O => Ok (acc, byteOffset)
  | S n' =>
      '(part, byteOffset) ← readImages_part contents byteOffset;
      readImages_parts contents n' byteOffset (acc ++ [part])
  end.

Definition readImages_frame (contents : list byte) (byteOffset : Z)
  : outcome (ImageFrame * Z) :=
  frameName ← cstring_at contents byteOffset;
  let nameLength := Z.of_nat (length frameName) + 1 in
  let byteOffset := byteOffset + nameLength in
  '(partsTotal, byteOffset) ← readUint32 contents byteOffset;
  '(frameWidth, byteOffset) ← readUint32 contents byteOffset;
  '(frameHeight, byteOffset) ← readUint32 contents byteOffset;
  '(parts, byteOffset) ← readImages_parts contents (Z.to_nat partsTotal) byteOffset [];
  Ok ({| parts := parts; frame_name := frameName;
         frame_width := frameWidth; frame_height := frameHeight |}, byteOffset).

(** The loop over [i], with [n] frames left. *)
Fixpoint readImages_frames (contents : list byte) (n : nat) (byteOffset : Z)
    (acc : list ImageFrame) : outcome (list ImageFrame * Z) :=
  match n with
  | O => Ok (acc, byteOffset)
  | S n' =>
      '(frame, byteOffset) ← readImages_frame contents byteOffset;
      readImages_frames contents n' byteOffset (acc ++ [frame])
  end.

(** [palette.assign(&contentsPtr[byteOffset], &contentsPtr[byteOffset + paletteSize])] *)
Definition read_palette (contents : list byte) (byteOffset : Z)
  : outcome (list byte) :=
  if (0 <=? byteOffset) && (byteOffset + paletteSize <=? Z.of_nat (length contents))
  then Ok (take (Z.to_nat paletteSize) (drop (Z.to_nat byteOffset) contents))
  else Undefined.

(** The body of the [while] loop: one packed image, keyed by the offset it
    starts at, and the offset after it. *)
Definition readImages_body (contents : list byte) (byteOffset : Z)
  : outcome (Z * PackedImage * Z) :=
  let offset := byteOffset mod 2 ^ 32 in
  palette ← read_palette contents byteOffset;
  let byteOffset := byteOffset + paletteSize in
  '(framesTotal, byteOffset) ← readUint32 contents byteOffset;
  '(frames, byteOffset) ← readImages_frames contents (Z.to_nat framesTotal) byteOffset [];
  Ok (offset, {| palette := palette; frames := frames |}, byteOffset).

(** [while (byteOffset < recordSize)], with at most [fuel] iterations. *)
Fixpoint readImages_while (fuel : nat) (contents : list byte) (recordSize : Z)
    (byteOffset : Z) (packed : gmap Z PackedImage)
  : outcome (Z * gmap Z PackedImage) :=
  if byteOffset <? recordSize then
    match fuel with
    | O => OutOfFuel
    | S fuel' =>
        '(offset, packedImage, byteOffset) ← readImages_body contents byteOffset;
        readImages_while fuel' contents recordSize byteOffset
          (<[offset := packedImage]> packed)
    end
  else Ok (byteOffset, packed).

(** The decoding of a payload buffer: the final byte offset and the table. *)
Definition readImages_decode (contents : list byte) (recordSize : Z)
    (packed : gmap Z PackedImage) : outcome (Z * gmap Z PackedImage) :=
  readImages_while (S (length contents)) contents recordSize 0 packed.

Definition readImages (file : list byte) (r : FfReader) (s : ifstream)
  : outcome (FfReader * ifstream) :=
  match findTocRecord_name r imagesOptRecordName with
  | None => Ok (r, s)
  | Some record =>
      let off := (offset record + Z.of_nat sizeof_MqrcHeader) mod 2 ^ 32 in
      let s1 := seekg off s in
      let recordSize := size record in
      let '(contents, s2) := read_vector file recordSize s1 in
      '(_, packed) ← readImages_decode contents recordSize (packedImages r);
      Ok (set_packedImages packed r, s2)
  end.

(** ** The constructor *)

(** The files of the host, by path; [None] when the file cannot be opened. *)
Definition filesystem : Type := string → option (list byte).

Definition FfReader_ctor (fs : filesystem) (ffFilePath : string)
    (readImageData : bool) : outcome FfReader :=
  match fs ffFilePath with
  | None => Throw CouldNotOpen
  | Some file =>
      s ← checkFileHeader file stream_open;
      '(r, s) ← readTableOfContents file (FfReader_init ffFilePath) s;
      '(r, s) ← readNameList file r s;
      '(r, s) ← readIndex file r s;
      if readImageData then
        '(r, s) ← readImages file r s;
        Ok r
      else Ok r
  end.

(** ** [getRecordData] and [getNames] *)

(** [data.resize(n)] *)
Definition resize (data : list byte) (n : nat) : list byte :=
  take n data ++ replicate (n - length data) zero_byte.

(** [getRecordData(const TocRecord&, std::vector<char>&)]: the result and the
    caller's buffer after the call. *)
Definition getRecordData_record (fs : filesystem) (r : FfReader)
    (record : TocRecord) (data : list byte) : bool * list byte :=
  match fs (ffFilePath r) with
  | None => (false, data)
  | Some file =>
      let s := seekg (offset record + Z.of_nat sizeof_MqrcHeader) stream_open in
      let data := resize data (Z.to_nat (size record)) in
      let '(got, _) := stream_read file (Z.to_nat (size record)) s in
      (true, got ++ drop (length got) data)
  end.

(** [getRecordData(const std::string&, std::vector<char>&)] *)
Definition getRecordData_name (fs : filesystem) (r : FfReader)
    (recordName : list byte) (data : list byte) : bool * list byte :=
  match findTocRecord_name r recordName with
  | None => (false, data)
  | Some record => getRecordData_record fs r record data
  end.

(** [getRecordData(RecordId, std::vector<char>&)] *)
Definition getRecordData (fs : filesystem) (r : FfReader)
    (recordId : Z) (data : list byte) : bool * list byte :=
  match findTocRecord r recordId with
  | None => (false, data)
  | Some record => getRecordData_record fs r record data
  end.

(** [getNames]: the array is created with one empty string per map entry and
    filled by index while iterating over the map. *)
Definition getNames (r : FfReader) : list (list byte) :=
  let namesArray := replicate (length (recordNames r)) [] in
  fst (fold_left (λ '(arr, i) pair, (<[i := fst pair]> arr, S i))
         (recordNames r) (namesArray, O)).

(** * Vocabulary of the statements

    The layout of a container as the header file documents it, decoded
    directly from the bytes of the file, and the predicates the theorems are
    stated with. *)

#[export] Instance byte_eq_decision : EqDecision byte := Byte.byte_eq_dec.

(** ** Header and table of contents *)

(** [MqdbHeader::signature] and [MqdbHeader::version] of a file. *)
Definition header_signature (file : list byte) : Z := le32 (take 4 file).
Definition header_version (file : list byte) : Z := le32 (take 4 (drop 8 file)).

(** The [TocRecord] stored at position [p]. *)
Definition entry_at (file : list byte) (p : Z) : option TocRecord :=
  TocRecord_of_bytes (take sizeof_TocRecord (drop (Z.to_nat p) file)).

(** The ToC offset follows the header; the ToC is a count and that many
    records. *)
Definition toc_offset (file : list byte) : Z := le32 (take 4 (drop 24 file)).
Definition toc_count (file : list byte) : Z :=
  le32 (take 4 (drop (Z.to_nat (toc_offset file)) file)).
Definition toc_entry (file : list byte) (i : nat) : option TocRecord :=
  entry_at file (toc_offset file + 4 + 16 * Z.of_nat i).

(** The table holds exactly the ToC records of the file, [es] in file order,
    each under its own id, and the ids are pairwise different. *)
Definition toc_holds (file : list byte) (toc : gmap Z TocRecord) : Prop :=
  ∃ es : list TocRecord,
    length es = Z.to_nat (toc_count file) ∧
    (∀ i, (i < length es)%nat → toc_entry file i = es !! i) ∧
    NoDup (recordId <$> es) ∧
    (∀ (id : Z) (e : TocRecord), toc !! id = Some e ↔ e ∈ es ∧ recordId e = id) ∧
    base.size toc = length es.

(** ** Stages of the constructor *)

(** [r] results from running the stages in order on [file]; the images stage
    is part of the run exactly when [withImages] is set. *)
Definition stages_run (file : list byte) (path : string) (withImages : bool)
    (r : FfReader) : Prop :=
  ∃ s1 r1 s2 r2 s3 r3 s4,
    checkFileHeader file stream_open = Ok s1 ∧
    readTableOfContents file (FfReader_init path) s1 = Ok (r1, s2) ∧
    readNameList file r1 s2 = Ok (r2, s3) ∧
    readIndex file r2 s3 = Ok (r3, s4) ∧
    if withImages then ∃ s5, readImages file r3 s4 = Ok (r, s5) else r = r3.

(** ** Name list *)

Definition keys {V} (m : strmap V) : list (list byte) := fst <$> m.
Definition strmap_sorted {V} (m : strmap V) : Prop := StronglySorted str_lt (keys m).

(** The sub-record header stored at a ToC entry's offset. *)
Definition header_of (file : list byte) (e : TocRecord) : list byte :=
  take sizeof_MqrcHeader (drop (Z.to_nat (offset e)) file).

(** The record [id] resolves through the ToC to a header with [used ≠ 0]. *)
Definition retained (file : list byte) (toc : gmap Z TocRecord) (id : Z) : bool :=
  match toc !! id with
  | Some e =>
      match field32 (header_of file e) 20 with
      | Some used => negb (used =? 0)
      | None => false
      end
  | None => false
  end.

(** The entry count of the name list whose payload starts at [base]. *)
Definition names_count (file : list byte) (base : Z) : Z :=
  le32 (take 4 (drop (Z.to_nat base) file)).

(** Entry [i] of the name list whose payload starts at [base]: the string in
    its 256-byte slot and its record id. *)
Definition name_entry (file : list byte) (base : Z) (i : nat) : list byte * Z :=
  let p := base + 4 + 260 * Z.of_nat i in
  (default [] (name_string (take 256 (drop (Z.to_nat p) file))),
   le32 (take 4 (drop (Z.to_nat (p + 256)) file))).

(** If [id] has a ToC entry, its sub-record header lies inside the file and
    carries the MQRC signature. *)
Definition entry_resolvable (file : list byte) (toc : gmap Z TocRecord) (id : Z) : bool :=
  match toc !! id with
  | None => true
  | Some e =>
      (0 <=? offset e) && (offset e + 28 <=? Z.of_nat (length file))
      && (le32 (take 4 (header_of file e)) =? mqrcSignature)
  end.

(** The name-list record exists, its payload lies inside the file, and every
    entry is resolvable. *)
Definition names_wellformed (file : list byte) (r : FfReader) : bool :=
  match findTocRecord r NameList with
  | None => false
  | Some namesList =>
      let base := offset namesList + 28 in
      let n := names_count file base in
      (0 <=? offset namesList)
      && (base + 4 + 260 * n <=? Z.of_nat (length file))
      && forallb (λ i, entry_resolvable file (tableOfContents r)
                         (snd (name_entry file base i)))
           (seq 0 (Z.to_nat n))
  end.

(** [(name, id)] is an entry of the name list that is retained, and no
    earlier entry with the same name is. *)
Definition first_retained (file : list byte) (r : FfReader)
    (name : list byte) (id : Z) : Prop :=
  ∃ (namesList : TocRecord) (i : nat),
    findTocRecord r NameList = Some namesList ∧
    (i < Z.to_nat (names_count file (offset namesList + 28)))%nat ∧
    name_entry file (offset namesList + 28) i = (name, id) ∧
    retained file (tableOfContents r) id = true ∧
    ∀ j, (j < i)%nat →
         fst (name_entry file (offset namesList + 28) j) = name →
         retained file (tableOfContents r)
           (snd (name_entry file (offset namesList + 28) j)) = false.

(** One iteration of the name-list loop on a decoded entry. *)
Definition name_step (file : list byte) (toc : gmap Z TocRecord)
    (names : strmap Z) (entry : list byte * Z) : strmap Z :=
  if retained file toc (snd entry) then
    match strmap_find (fst entry) names with
    | Some _ => names
    | None => strmap_insert (fst entry) (snd entry) names
    end
  else names.

(** ** Buffers and payloads *)

(** An outcome of a computation that has no [throw] and no loop of its own:
    a value, or undefined behaviour. *)
Definition quiet {A} (o : outcome A) : Prop :=
  match o with
  | Ok _ | Undefined => True
  | Throw _ | OutOfFuel => False
  end.

(** [off'] is reached from [off] by reads inside a buffer of [len] bytes. *)
Definition advances (len off off' : Z) : Prop := 0 ≤ off ≤ off' ∧ off' ≤ len.

(** The payload bytes of a record: [size] bytes after its sub-header. *)
Definition payload_of (file : list byte) (record : TocRecord) : list byte :=
  take (Z.to_nat (size record))
       (drop (Z.to_nat (offset record + Z.of_nat sizeof_MqrcHeader)) file).

Definition payload_inside (file : list byte) (record : TocRecord) : Prop :=
  0 ≤ offset record ∧ 0 ≤ size record ∧
  offset record + 28 + size record ≤ Z.of_nat (length file).

(** What a fetch returns, given the ToC entry the lookup resolved to and the
    caller's buffer [data]. *)
Definition fetch_spec (fs : filesystem) (r : FfReader) (resolved : option TocRecord)
    (data : list byte) (result : bool * list byte) : Prop :=
  match resolved with
  | None => result = (false, data)
  | Some record =>
      match fs (ffFilePath r) with
      | None => result = (false, data)
      | Some file =>
          fst result = true ∧
          length (snd result) = Z.to_nat (size record) ∧
          (payload_inside file record → result = (true, payload_of file record))
      end
  end.

(** ** A sample container

    A small well-formed file used to exercise the reader: a name list
    (record 2) with seven entries, an index record, an images record and a
    few plain records.  Record 15 is marked unused, id 99 is named but has no
    ToC entry, and the name [A.PNG] is listed twice. *)

Definition byte_of_Z (z : Z) : byte :=
  default zero_byte (Byte.of_N (Z.to_N (z mod 256))).

Definition u32 (z : Z) : list byte :=
  [byte_of_Z z; byte_of_Z (z / 2 ^ 8); byte_of_Z (z / 2 ^ 16); byte_of_Z (z / 2 ^ 24)].

Definition cstr (s : string) : list byte := bytes_of_string s ++ [zero_byte].

Definition name_slot (s : string) : list byte := resize (bytes_of_string s) 256.

(** A stored record: its id, its [used] flag and its payload. *)
Definition stored : Type := Z * Z * list byte.

Definition mqrc_bytes (rec : stored) : list byte :=
  let '(id, used, payload) := rec in
  let n := Z.of_nat (length payload) in
  u32 mqrcSignature ++ u32 0 ++ u32 id ++ u32 n ++ u32 n ++ u32 used ++ u32 0
    ++ payload.

Fixpoint toc_bytes (recs : list stored) (pos : Z) : list byte :=
  match recs with
  | [] => []
  | rec :: rest =>
      let '(id, _, payload) := rec in
      let n := Z.of_nat (length payload) in
      u32 id ++ u32 n ++ u32 n ++ u32 pos
        ++ toc_bytes rest (pos + Z.of_nat (length (mqrc_bytes rec)))
  end.

Definition container_bytes (recs : list stored) : list byte :=
  let count := Z.of_nat (length recs) in
  u32 mqdbFileSignature ++ u32 0 ++ u32 mqdbFileVersion ++ replicate 12 zero_byte
    ++ u32 28
    ++ u32 count ++ toc_bytes recs (28 + 4 + 16 * count)
    ++ concat (mqrc_bytes <$> recs).

Definition sample_names : list byte :=
  u32 7
    ++ name_slot "-INDEX.OPT" ++ u32 10
    ++ name_slot "-IMAGES.OPT" ++ u32 11
    ++ name_slot "B.PNG" ++ u32 12
    ++ name_slot "A.PNG" ++ u32 13
    ++ name_slot "A.PNG" ++ u32 14
    ++ name_slot "C.PNG" ++ u32 15
    ++ name_slot "D.PNG" ++ u32 99.

Definition sample_index : list byte :=
  u32 2
    ++ u32 12 ++ cstr "B" ++ u32 0 ++ u32 1077
    ++ u32 RecordId_max ++ cstr "ANIM" ++ u32 0 ++ u32 1077.

Definition sample_images : list byte :=
  replicate 1035 "*"%byte
    ++ u32 1
    ++ cstr "f" ++ u32 1 ++ u32 2 ++ u32 3
    ++ u32 1 ++ u32 2 ++ u32 3 ++ u32 4 ++ u32 5 ++ u32 6.

Definition sample_records (imagesPayload : list byte) : list stored :=
  [ (2, 1, sample_names);
    (10, 1, sample_index);
    (11, 1, imagesPayload);
    (12, 1, bytes_of_string "hello");
    (13, 1, bytes_of_string "abc");
    (14, 1, bytes_of_string "x");
    (15, 0, bytes_of_string "no");
    (16, 1, bytes_of_string "tail") ].

Definition sample : list byte := container_bytes (sample_records sample_images).

(** The same container with the images payload one byte short. *)
Definition sample_cut : list byte :=
  container_bytes (sample_records (take 1076 sample_images)).

(** The sample file with its last byte missing. *)
Definition sample_short : list byte := take (length sample - 1) sample.

Definition sample_path : string := "Interf.ff".

Definition fs_of (file : list byte) : filesystem :=
  λ path, if String.eqb path sample_path then Some file else None.

(** The reader the constructor builds from [file]. *)
Definition sample_reader (file : list byte) (readImageData : bool) : FfReader :=
  match FfReader_ctor (fs_of file) sample_path readImageData with
  | Ok r => r
  | _ => FfReader_init sample_path
  end.

(** The reader of the sample after [readTableOfContents]. *)
Definition sample_after_toc : FfReader :=
  match readTableOfContents sample (FfReader_init sample_path)
          {| gpos := 24; failbit := false |} with
  | Ok (r, _) => r
  | _ => FfReader_init sample_path
  end.

Definition sample_packed : gmap Z PackedImage :=
  match readImages_decode sample_images 1077 ∅ with
  | Ok (_, packed) => packed
  | _ => ∅
  end.

(** The ToC entry of record 12 of the sample. *)
Definition sample_record_12 : TocRecord :=
  {| recordId := 12; size := 5; sizeAllocated := 5; offset := 3180 |}.

(** The sample with another signature, and with another version. *)
Definition bad_signature_file : list byte :=
  u32 (FFSIGNATURE "M" "Q" "D" "C") ++ drop 4 sample.
Definition bad_version_file : list byte := take 8 sample ++ u32 8 ++ drop 12 sample.

(** A container whose ToC lists id 7 twice. *)
Definition dup_toc_file : list byte :=
  container_bytes
    [ (2, 1, u32 0); (7, 1, bytes_of_string "a"); (7, 1, bytes_of_string "b") ].

(** * Further vocabulary

    Error sets, invariants of the reader, and the payload layouts written as
    encoders. *)

(** The errors a computation may throw are among [es], and it does not run
    out of fuel. *)
Definition throws_only {A} (es : list error) (o : outcome A) : Prop :=
  match o with
  | Ok _ | Undefined => True
  | Throw e => e ∈ es
  | OutOfFuel => False
  end.

Definition uint32 (z : Z) : Prop := 0 ≤ z < 2 ^ 32.

(** A string as [readNameList] can store it: at most 255 characters, none of
    them the terminator. *)
Definition stored_name (name : list byte) : Prop :=
  (length name ≤ 255)%nat ∧ Forall (λ b, b ≠ zero_byte) name.

(** What the name-list loop keeps true of the name table. *)
Definition names_inv (r : FfReader) (names : strmap Z) : Prop :=
  Forall stored_name (keys names) ∧
  ∀ (name : list byte) (id : Z),
    strmap_find name names = Some id → is_Some (findTocRecord r id).

(** The record id stored at position [p]. *)
Definition id_at (file : list byte) (p : Z) : Z :=
  le32 (take 4 (drop (Z.to_nat p) file)).

(** The record ids of the ToC records, in file order. *)
Definition toc_ids (file : list byte) : list Z :=
  (λ i, id_at file (toc_offset file + 4 + 16 * Z.of_nat i))
    <$> seq 0 (Z.to_nat (toc_count file)).

(** The ToC offset and the whole ToC lie inside the file. *)
Definition toc_inside (file : list byte) : Prop :=
  (28 ≤ length file)%nat ∧
  toc_offset file + 4 + 16 * toc_count file ≤ Z.of_nat (length file).

(** A container without a name list. *)
Definition nameless_file : list byte :=
  container_bytes [ (7, 1, bytes_of_string "a"); (8, 1, bytes_of_string "b") ].

Definition encode_part (p : ImagePart) : list byte :=
  u32 (sourceX p) ++ u32 (sourceY p) ++ u32 (targetX p) ++ u32 (targetY p)
    ++ u32 (part_width p) ++ u32 (part_height p).

Definition encode_frame (f : ImageFrame) : list byte :=
  frame_name f ++ [zero_byte]
    ++ u32 (Z.of_nat (length (parts f))) ++ u32 (frame_width f) ++ u32 (frame_height f)
    ++ concat (encode_part <$> parts f).

Definition encode_image (img : PackedImage) : list byte :=
  palette img ++ u32 (Z.of_nat (length (frames img)))
    ++ concat (encode_frame <$> frames img).

Definition encode_images (imgs : list PackedImage) : list byte :=
  concat (encode_image <$> imgs).

Definition part_ok (p : ImagePart) : Prop :=
  uint32 (sourceX p) ∧ uint32 (sourceY p) ∧ uint32 (targetX p) ∧ uint32 (targetY p)
  ∧ uint32 (part_width p) ∧ uint32 (part_height p).

Definition frame_ok (f : ImageFrame) : Prop :=
  Forall (λ c, c ≠ zero_byte) (frame_name f) ∧
  uint32 (frame_width f) ∧ uint32 (frame_height f) ∧
  uint32 (Z.of_nat (length (parts f))) ∧ Forall part_ok (parts f).

Definition image_ok (img : PackedImage) : Prop :=
  length (palette img) = 1035%nat ∧
  uint32 (Z.of_nat (length (frames img))) ∧ Forall frame_ok (frames img).

(** The offset at which image [i] of the payload starts. *)
Definition image_offset (imgs : list PackedImage) (i : nat) : Z :=
  Z.of_nat (length (encode_images (take i imgs))).

(** The table after storing the images of a payload that starts at [off]. *)
Fixpoint store_images (off : Z) (imgs : list PackedImage)
    (packed : gmap Z PackedImage) : gmap Z PackedImage :=
  match imgs with
  | [] => packed
  | img :: rest =>
      store_images (off + Z.of_nat (length (encode_image img))) rest
        (<[off := img]> packed)
  end.

(** The packed image of the sample. *)
Definition sample_image : PackedImage :=
  {| palette := replicate 1035 "*"%byte;
     frames := [ {| parts := [ {| sourceX := 1; sourceY := 2; targetX := 3;
                                  targetY := 4; part_width := 5; part_height := 6 |} ];
                    frame_name := bytes_of_string "f";
                    frame_width := 2; frame_height := 3 |} ] |}.

(** An entry of the index payload. *)
Record IndexEntry : Type := {
  entry_id : Z;
  entry_name : list byte;
  entry_offset : Z;
  entry_size : Z
}.

Definition encode_index_entry (e : IndexEntry) : list byte :=
  u32 (entry_id e) ++ entry_name e ++ [zero_byte]
    ++ u32 (entry_offset e) ++ u32 (entry_size e).

Definition index_entry_ok (e : IndexEntry) : Prop :=
  uint32 (entry_id e) ∧ Forall (λ c, c ≠ zero_byte) (entry_name e) ∧
  uint32 (entry_offset e) ∧ uint32 (entry_size e).

(** The sample with the signature of record 12 overwritten. *)
Definition bad_record_file : list byte :=
  take 3180 sample ++ u32 0 ++ drop 3184 sample.

(** The ToC entry of the name list of the sample. *)
Definition sample_record_2 : TocRecord :=
  {| recordId := 2; size := 1824; sizeAllocated := 1824; offset := 160 |}.

(** The reader and the stream of the sample after [readNameList]. *)
Definition sample_after_names : FfReader * ifstream :=
  match readNameList sample sample_after_toc stream_open with
  | Ok p => p
  | _ => (FfReader_init sample_path, stream_open)
  end.

(** The ToC records of the file, in file order, and the table that maps each
    record id to its record. *)
Definition toc_records (file : list byte) : list TocRecord :=
  omap (toc_entry file) (seq 0 (Z.to_nat (toc_count file))).

Definition toc_table (file : list byte) : gmap Z TocRecord :=
  list_to_map ((λ e, (recordId e, e)) <$> toc_records file).

(** * Properties *)

(** ** Bytes, outcomes and streams *)

Lemma byte_val_range (b : byte) : 0 ≤ byte_val b < 256.
Proof. unfold byte_val. pose proof (Byte.to_N_bounded b). lia. Qed.

Lemma bind_Ok {A B} (m : outcome A) (f : A → outcome B) (b : B) :
  m ≫= f = Ok b → ∃ a, m = Ok a ∧ f a = Ok b.
Proof. destruct m; simpl; intros H; try discriminate. eauto. Qed.

Lemma field32_take (raw : list byte) (n o : nat) :
  (o + 4 ≤ n)%nat → (n ≤ length raw)%nat →
  field32 (take n raw) o = Some (le32 (take 4 (drop o raw))).
Proof.
  intros Ho Hn. unfold field32.
  rewrite length_take, Nat.min_l by lia.
  destruct (Nat.leb_spec (o + 4) n) as [_|]. 2: { exfalso; lia. }
  f_equal. f_equal.
  rewrite !take_drop_commute, take_take, Nat.min_l by lia. done.
Qed.

Lemma stream_read_inside (file : list byte) (n : nat) (s : ifstream) :
  failbit s = false → 0 ≤ gpos s → gpos s + Z.of_nat n ≤ Z.of_nat (length file) →
  stream_read file n s =
    (take n (drop (Z.to_nat (gpos s)) file),
     {| gpos := gpos s + Z.of_nat n; failbit := false |}).
Proof.
  intros Hf Hp Hn. unfold stream_read. rewrite Hf.
  assert (Hlen : length (take n (drop (Z.to_nat (gpos s)) file)) = n).
  { rewrite length_take, length_drop. lia. }
  rewrite Hlen. f_equal. f_equal.
  destruct (Nat.ltb_spec n n); [lia | done].
Qed.

(** ** The header *)

Example signature_bytes : le32 (bytes_of_string "MQDB") = mqdbFileSignature.
Proof. reflexivity. Qed.


Lemma checkFileHeader_eq (file : list byte) :
  (24 ≤ length file)%nat →
  checkFileHeader file stream_open =
    if negb (header_signature file =? mqdbFileSignature) then Throw NotMqdbFile
    else if negb (header_version file =? mqdbFileVersion) then Throw WrongVersion
    else Ok {| gpos := 24; failbit := false |}.
Proof.
  intros Hlen. unfold checkFileHeader.
  rewrite stream_read_inside by (simpl; unfold sizeof_MqdbHeader; lia).
  simpl gpos. change (Z.to_nat 0) with 0%nat. rewrite drop_0.
  unfold sizeof_MqdbHeader.
  rewrite !field32_take by lia. simpl.
  reflexivity.
Qed.

(** C8.  A file of at least 24 bytes whose signature field is not 'MQDB' makes
    the constructor throw the not-an-MQDB-file error, so no reader exists;
    with the right signature and a version field other than 9 it throws the
    wrong-version error. *)
Theorem ctor_rejects_bad_header (fs : filesystem) (path : string)
    (readImageData : bool) (file : list byte) :
  fs path = Some file →
  (24 ≤ length file)%nat →
  (header_signature file ≠ mqdbFileSignature →
     FfReader_ctor fs path readImageData = Throw NotMqdbFile) ∧
  (header_signature file = mqdbFileSignature →
   header_version file ≠ mqdbFileVersion →
     FfReader_ctor fs path readImageData = Throw WrongVersion).
Proof.
  intros Hfs Hlen. unfold FfReader_ctor. rewrite Hfs.
  rewrite checkFileHeader_eq by done.
  split.
  - intros Hsig. apply Z.eqb_neq in Hsig. by rewrite Hsig.
  - intros Hsig Hver. apply Z.eqb_eq in Hsig. apply Z.eqb_neq in Hver.
    by rewrite Hsig, Hver.
Qed.

Lemma ctor_rejects_bad_header_witness :
  FfReader_ctor (fs_of bad_signature_file) sample_path true = Throw NotMqdbFile ∧
  FfReader_ctor (fs_of bad_version_file) sample_path true = Throw WrongVersion.
Proof.
  split.
  - apply (proj1 (ctor_rejects_bad_header (fs_of bad_signature_file) sample_path
                    true bad_signature_file eq_refl ltac:(vm_compute; lia))).
    vm_compute. discriminate.
  - apply (proj2 (ctor_rejects_bad_header (fs_of bad_version_file) sample_path
                    true bad_version_file eq_refl ltac:(vm_compute; lia))).
    + vm_compute. reflexivity.
    + vm_compute. discriminate.
Defined.

(** ** The table of contents *)

Lemma field32_Some (raw : list byte) (o : nat) (v : Z) :
  field32 raw o = Some v → (o + 4 ≤ length raw)%nat.
Proof.
  unfold field32. destruct (Nat.leb_spec (o + 4) (length raw)); [done | discriminate].
Qed.

Lemma TocRecord_of_bytes_Some (raw : list byte) (e : TocRecord) :
  TocRecord_of_bytes raw = Some e →
  (16 ≤ length raw)%nat ∧ field32 raw 0 = Some (recordId e).
Proof.
  unfold TocRecord_of_bytes. intros H.
  destruct (field32 raw 0) as [i|] eqn:H0; [|discriminate]. simpl in H.
  destruct (field32 raw 4) as [sz|] eqn:H4; [|discriminate]. simpl in H.
  destruct (field32 raw 8) as [sa|] eqn:H8; [|discriminate]. simpl in H.
  destruct (field32 raw 12) as [o|] eqn:H12; [|discriminate]. simpl in H.
  apply field32_Some in H12. injection H as <-. simpl. split; [lia | done].
Qed.

Lemma stream_read_failed (file : list byte) (n : nat) (s : ifstream) :
  failbit s = true → stream_read file n s = ([], s).
Proof. intros H. unfold stream_read. by rewrite H. Qed.

Lemma stream_read_length (file : list byte) (n : nat) (s : ifstream) :
  failbit s = false → 0 ≤ gpos s → (0 < n)%nat →
  (n ≤ length (fst (stream_read file n s)))%nat →
  gpos s + Z.of_nat n ≤ Z.of_nat (length file).
Proof.
  intros Hf Hp Hn. unfold stream_read. rewrite Hf. simpl.
  rewrite length_take, length_drop. lia.
Qed.

Lemma entry_at_inside (file : list byte) (p : Z) (e : TocRecord) :
  0 ≤ p → entry_at file p = Some e → p + 16 ≤ Z.of_nat (length file).
Proof.
  intros Hp H. apply TocRecord_of_bytes_Some in H as [H _].
  rewrite length_take, length_drop in H. unfold sizeof_TocRecord in H. lia.
Qed.

Lemma toc_loop_step (file : list byte) (n : nat) (toc : gmap Z TocRecord)
    (s : ifstream) (e : TocRecord) :
  failbit s = false → 0 ≤ gpos s →
  entry_at file (gpos s) = Some e →
  readTableOfContents_loop file (S n) toc s =
    match toc !! recordId e with
    | Some _ => Throw NonUniqueIds
    | None => readTableOfContents_loop file n (<[recordId e := e]> toc)
                {| gpos := gpos s + 16; failbit := false |}
    end.
Proof.
  intros Hf Hp He. pose proof (entry_at_inside _ _ _ Hp He) as Hin.
  simpl. rewrite stream_read_inside by (first [done | unfold sizeof_TocRecord; lia]).
  unfold entry_at in He. apply TocRecord_of_bytes_Some in He as Hid.
  destruct Hid as [_ ->]. simpl.
  destruct (toc !! recordId e); [done|]. rewrite He. simpl. done.
Qed.

Lemma toc_loop_ok (file : list byte) (n : nat) :
  ∀ (toc : gmap Z TocRecord) (s : ifstream) toc' s',
  0 ≤ gpos s →
  readTableOfContents_loop file n toc s = Ok (toc', s') →
  ∃ es : list TocRecord,
    length es = n ∧
    (∀ i, (i < n)%nat → entry_at file (gpos s + 16 * Z.of_nat i) = es !! i) ∧
    NoDup (recordId <$> es) ∧
    (∀ e : TocRecord, e ∈ es → toc !! recordId e = None) ∧
    (∀ (id : Z) (e : TocRecord), toc' !! id = Some e ↔ toc !! id = Some e ∨ (e ∈ es ∧ recordId e = id)) ∧
    base.size toc' = (base.size toc + n)%nat.
Proof.
  induction n as [|n IH]; intros toc s toc' s' Hp H.
  - simpl in H. injection H as <- <-. exists []. split_and!.
    + done.
    + intros i Hi. lia.
    + constructor.
    + intros e He. by apply elem_of_nil in He.
    + intros id e. split; [by left|]. intros [?|[He _]]; [done|]. by apply elem_of_nil in He.
    + lia.
  - simpl in H.
    destruct (failbit s) eqn:Hf.
    { rewrite stream_read_failed in H by done. simpl in H. discriminate. }
    destruct (stream_read file sizeof_TocRecord s) as [raw s1] eqn:Hread.
    apply bind_Ok in H as (id & Hid & H).
    destruct (toc !! id) eqn:Hfresh; [discriminate|].
    apply bind_Ok in H as (record & Hrec & H).
    destruct (TocRecord_of_bytes raw) as [rec|] eqn:Hdec; [|discriminate].
    injection Hrec as ->.
    apply TocRecord_of_bytes_Some in Hdec as Hraw. destruct Hraw as [Hlen Hid'].
    rewrite Hid' in Hid. injection Hid as <-.
    assert (Hin : gpos s + 16 ≤ Z.of_nat (length file)).
    { pose proof (stream_read_length file sizeof_TocRecord s Hf Hp ltac:(unfold sizeof_TocRecord; lia)) as Hl.
      rewrite Hread in Hl. simpl in Hl. unfold sizeof_TocRecord in Hl. lia. }
    rewrite stream_read_inside in Hread by (first [done | unfold sizeof_TocRecord; lia]).
    injection Hread as Hraw <-.
    apply IH in H as (es & Hes & Hent & Hnd & Hnone & Hlook & Hsize); [|simpl; lia].
    simpl in Hent.
    exists (record :: es). split_and!.
    + simpl. lia.
    + intros [|i] Hi.
      * simpl. rewrite Z.add_0_r. unfold entry_at. by rewrite Hraw.
      * unfold sizeof_TocRecord in Hent. change ((record :: es) !! S i) with (es !! i).
        rewrite <- Hent by lia. f_equal. lia.
    + simpl. constructor; [|done].
      intros Hmem. apply list_elem_of_fmap in Hmem as (e & Heq & He).
      apply Hnone in He. rewrite <- Heq in He. by rewrite lookup_insert_eq in He.
    + intros e He. apply elem_of_cons in He as [->|He]; [done|].
      apply Hnone in He.
      destruct (decide (recordId record = recordId e)) as [Heq|Hne].
      * rewrite Heq in He. by rewrite lookup_insert_eq in He.
      * by rewrite lookup_insert_ne in He.
    + intros id e. rewrite Hlook. rewrite elem_of_cons.
      destruct (decide (recordId record = id)) as [<-|Hne].
      * rewrite lookup_insert_eq. rewrite Hfresh. split.
        -- intros [Heq|[He Heq]]; [injection Heq as <-|]; right; auto.
        -- intros [?|[[->|He] Heq]]; [done|by left|right; auto].
      * rewrite lookup_insert_ne by done. split.
        -- intros [?|[He Heq]]; [by left|right; auto].
        -- intros [?|[[->|He] Heq]]; [by left|done|right; auto].
    + rewrite Hsize. rewrite map_size_insert_None by done. lia.
Qed.

Lemma toc_loop_dup (file : list byte) (n : nat) :
  ∀ (toc : gmap Z TocRecord) (s : ifstream) (j : nat) (e : TocRecord),
  failbit s = false → 0 ≤ gpos s →
  (j < n)%nat →
  entry_at file (gpos s + 16 * Z.of_nat j) = Some e →
  (is_Some (toc !! recordId e) ∨
   ∃ i e', (i < j)%nat ∧ entry_at file (gpos s + 16 * Z.of_nat i) = Some e' ∧
           recordId e' = recordId e) →
  readTableOfContents_loop file n toc s = Throw NonUniqueIds.
Proof.
  induction n as [|n IH]; intros toc s j e Hf Hp Hj He Hdup; [lia|].
  assert (Hin : gpos s + 16 * Z.of_nat j + 16 ≤ Z.of_nat (length file)).
  { apply entry_at_inside in He; lia. }
  destruct (entry_at file (gpos s)) as [e0|] eqn:He0.
  2: { exfalso. unfold entry_at, TocRecord_of_bytes in He0.
       rewrite !field32_take in He0
         by (unfold sizeof_TocRecord; rewrite ?length_drop; lia).
       discriminate. }
  rewrite (toc_loop_step _ _ _ _ e0) by done.
  destruct (toc !! recordId e0) eqn:Hfresh; [done|].
  destruct j as [|j].
  - exfalso. rewrite Z.add_0_r in He. rewrite He in He0. injection He0 as ->.
    destruct Hdup as [[? Hs]|(i & ? & Hi & _)]; [congruence | lia].
  - apply (IH _ _ j e); simpl; try done; try lia.
    + rewrite <- He. f_equal. lia.
    + destruct Hdup as [[x Hs]|(i & e' & Hi & He' & Heq)].
      * left. destruct (decide (recordId e0 = recordId e)) as [->|Hne].
        -- rewrite lookup_insert_eq. eauto.
        -- rewrite lookup_insert_ne by done. eauto.
      * destruct i as [|i].
        -- left. rewrite Z.add_0_r in He'. rewrite He' in He0. injection He0 as ->.
           rewrite Heq. rewrite lookup_insert_eq. eauto.
        -- right. exists i, e'. split_and!; [lia| |done].
           rewrite <- He'. f_equal. lia.
Qed.

Lemma le32_nonneg (bs : list byte) : 0 ≤ le32 bs.
Proof.
  induction bs as [|b bs IH]; simpl; [lia|].
  pose proof (byte_val_range b). lia.
Qed.

Lemma readUint32_file_inside (file : list byte) (s : ifstream) :
  failbit s = false → 0 ≤ gpos s → gpos s + 4 ≤ Z.of_nat (length file) →
  readUint32_file file s =
    (le32 (take 4 (drop (Z.to_nat (gpos s)) file)),
     {| gpos := gpos s + 4; failbit := false |}).
Proof.
  intros Hf Hp Hin. unfold readUint32_file.
  by rewrite stream_read_inside by (first [done | lia]).
Qed.

Lemma readUint32_file_short (file : list byte) (s : ifstream) :
  failbit s = false → 0 ≤ gpos s → Z.of_nat (length file) < gpos s + 4 →
  ∃ s', readUint32_file file s = (le32 (take 4 (drop (Z.to_nat (gpos s)) file)), s')
        ∧ failbit s' = true.
Proof.
  intros Hf Hp Hin. unfold readUint32_file, stream_read. rewrite Hf.
  eexists. split; [done|]. simpl.
  apply Nat.ltb_lt. rewrite length_take, length_drop. lia.
Qed.

Lemma toc_loop_failed (file : list byte) (n : nat) (toc : gmap Z TocRecord)
    (s : ifstream) (res : gmap Z TocRecord * ifstream) :
  failbit s = true →
  readTableOfContents_loop file n toc s = Ok res → n = O.
Proof.
  intros Hf H. destruct n; [done|]. simpl in H.
  rewrite stream_read_failed in H by done. discriminate.
Qed.

Lemma readTableOfContents_ok (file : list byte) (path : string)
    (r : FfReader) (s : ifstream) :
  (28 ≤ length file)%nat →
  readTableOfContents file (FfReader_init path) {| gpos := 24; failbit := false |}
    = Ok (r, s) →
  toc_holds file (tableOfContents r) ∧
  r = set_tableOfContents (tableOfContents r) (FfReader_init path).
Proof.
  intros Hlen H. unfold readTableOfContents in H.
  rewrite readUint32_file_inside in H by (simpl; first [done | lia]).
  simpl gpos in H. change (Z.to_nat 24) with 24%nat in H.
  fold (toc_offset file) in H.
  pose proof (le32_nonneg (take 4 (drop 24 file))) as Hoff. fold (toc_offset file) in Hoff.
  unfold seekg in H. simpl failbit in H.
  destruct (Z.ltb_spec (toc_offset file) 0) as [?|_]; [lia|].
  destruct (readUint32_file file {| gpos := toc_offset file; failbit := false |})
    as [entriesTotal s3] eqn:Hcount.
  apply bind_Ok in H as ([toc s4] & Hloop & H). injection H as <- <-.
  simpl. split; [|done].
  destruct (Z.le_gt_cases (toc_offset file + 4) (Z.of_nat (length file))) as [Hin|Hout].
  - rewrite readUint32_file_inside in Hcount by (simpl; first [done | lia]).
    simpl in Hcount. fold (toc_count file) in Hcount. injection Hcount as <- <-.
    apply toc_loop_ok in Hloop as (es & Hes & Hent & Hnd & _ & Hlook & Hsize);
      [|simpl; lia].
    exists es. split_and!.
    + done.
    + intros i Hi. unfold toc_entry. rewrite <- Hent by lia. simpl. done.
    + done.
    + intros id e. rewrite Hlook. simpl. rewrite lookup_empty.
      split; [intros [?|?]; done | by right].
    + rewrite Hsize. simpl. rewrite map_size_empty. lia.
  - destruct (readUint32_file_short file {| gpos := toc_offset file; failbit := false |})
      as (s' & Heq & Hfail); [done | simpl; lia | simpl; lia |].
    rewrite Heq in Hcount. simpl in Hcount. fold (toc_count file) in Hcount.
    injection Hcount as <- <-.
    pose proof (toc_loop_failed _ _ _ _ _ Hfail Hloop) as Hn.
    rewrite Hn in Hloop. simpl in Hloop. injection Hloop as <- <-.
    exists []. split_and!.
    + done.
    + simpl. intros i Hi. lia.
    + constructor.
    + intros id e. simpl. rewrite lookup_empty. split; [done|].
      intros [He _]. by apply elem_of_nil in He.
    + simpl. by rewrite map_size_empty.
Qed.

Lemma readTableOfContents_dup (file : list byte) (path : string)
    (i j : nat) (e1 e2 : TocRecord) :
  (28 ≤ length file)%nat →
  (i < j)%nat → (j < Z.to_nat (toc_count file))%nat →
  toc_entry file i = Some e1 → toc_entry file j = Some e2 →
  recordId e1 = recordId e2 →
  readTableOfContents file (FfReader_init path) {| gpos := 24; failbit := false |}
    = Throw NonUniqueIds.
Proof.
  intros Hlen Hij Hj He1 He2 Heq. unfold readTableOfContents.
  rewrite readUint32_file_inside by (simpl; first [done | lia]).
  simpl gpos. change (Z.to_nat 24) with 24%nat.
  fold (toc_offset file).
  pose proof (le32_nonneg (take 4 (drop 24 file))) as Hoff. fold (toc_offset file) in Hoff.
  unfold seekg. simpl failbit.
  destruct (Z.ltb_spec (toc_offset file) 0) as [?|_]; [lia|].
  unfold toc_entry in He1, He2.
  assert (Hin : toc_offset file + 4 + 16 * Z.of_nat j + 16 ≤ Z.of_nat (length file)).
  { apply (entry_at_inside _ _ e2); [lia | done]. }
  rewrite readUint32_file_inside by (simpl; first [done | lia]).
  simpl gpos. fold (toc_count file).
  rewrite (toc_loop_dup file _ _ _ j e2); simpl; try done; try lia.
  right. exists i, e1. done.
Qed.

(** ** What each stage leaves untouched *)

Lemma readNameList_fields (file : list byte) (r r' : FfReader) (s s' : ifstream) :
  readNameList file r s = Ok (r', s') → r' = set_recordNames (recordNames r') r.
Proof.
  unfold readNameList. destruct (findTocRecord r NameList); [|discriminate].
  destruct (readUint32_file _ _) as [namesTotal s2].
  intros H. apply bind_Ok in H as ([names s3] & _ & H). by injection H as <- <-.
Qed.

Lemma readIndex_store_id (r : FfReader) (id : Z) (name : list byte) (o sz : Z) :
  readIndex_store r id name o sz = r.
Proof. unfold readIndex_store. by destruct (negb _). Qed.

Lemma readIndex_loop_id (contents : list byte) (n : nat) :
  ∀ (byteOffset : Z) (r r' : FfReader),
  readIndex_loop contents n byteOffset r = Ok r' → r' = r.
Proof.
  induction n as [|n IH]; intros off r r' H; simpl in H.
  - by injection H.
  - apply bind_Ok in H as ([[[[id name] o] sz] off'] & _ & H).
    apply IH in H. by rewrite readIndex_store_id in H.
Qed.

Lemma readIndex_id (file : list byte) (r r' : FfReader) (s s' : ifstream) :
  readIndex file r s = Ok (r', s') → r' = r.
Proof.
  unfold readIndex. destruct (findTocRecord_name r indexOptRecordName).
  - destruct (read_vector _ _ _) as [contents s2]. intros H.
    apply bind_Ok in H as ([total off] & _ & H).
    apply bind_Ok in H as (r1 & Hloop & H). injection H as <- <-.
    by apply readIndex_loop_id in Hloop.
  - intros H. by injection H.
Qed.

Lemma readImages_fields (file : list byte) (r r' : FfReader) (s s' : ifstream) :
  readImages file r s = Ok (r', s') → r' = set_packedImages (packedImages r') r.
Proof.
  unfold readImages. destruct (findTocRecord_name r imagesOptRecordName).
  - destruct (read_vector _ _ _) as [contents s2]. intros H.
    apply bind_Ok in H as ([off packed] & _ & H). by injection H as <- <-.
  - intros H. injection H as <- <-. by destruct r.
Qed.

(** ** The constructor as a sequence of stages *)

Lemma FfReader_ctor_Ok (fs : filesystem) (path : string) (readImageData : bool)
    (r : FfReader) :
  FfReader_ctor fs path readImageData = Ok r ↔
  ∃ file, fs path = Some file ∧ stages_run file path readImageData r.
Proof.
  unfold FfReader_ctor, stages_run. split.
  - destruct (fs path) as [file|]; [|discriminate]. intros H.
    apply bind_Ok in H as (s1 & H1 & H).
    apply bind_Ok in H as ([r1 s2] & H2 & H).
    apply bind_Ok in H as ([r2 s3] & H3 & H).
    apply bind_Ok in H as ([r3 s4] & H4 & H).
    exists file. split; [done|]. exists s1, r1, s2, r2, s3, r3, s4.
    split_and!; try done.
    destruct readImageData.
    + apply bind_Ok in H as ([r4 s5] & H5 & H). injection H as <-. eauto.
    + by injection H.
  - intros (file & -> & s1 & r1 & s2 & r2 & s3 & r3 & s4 & H1 & H2 & H3 & H4 & H5).
    rewrite H1. simpl. rewrite H2. simpl. rewrite H3. simpl. rewrite H4. simpl.
    destruct readImageData.
    + destruct H5 as [s5 H5]. rewrite H5. done.
    + by rewrite H5.
Qed.

Lemma stages_run_toc (file : list byte) (path : string) (b : bool) (r : FfReader) :
  (28 ≤ length file)%nat → stages_run file path b r →
  toc_holds file (tableOfContents r).
Proof.
  intros Hlen (s1 & r1 & s2 & r2 & s3 & r3 & s4 & H1 & H2 & H3 & H4 & H5).
  rewrite checkFileHeader_eq in H1 by lia.
  destruct (negb _); [discriminate|]. destruct (negb _); [discriminate|].
  injection H1 as <-.
  apply readTableOfContents_ok in H2 as [Htoc _]; [|done].
  apply readNameList_fields in H3. apply readIndex_id in H4. subst r3.
  assert (tableOfContents r = tableOfContents r1) as ->; [|done].
  destruct b.
  - destruct H5 as [s5 H5]. apply readImages_fields in H5.
    rewrite H5, H3. done.
  - subst r. rewrite H3. done.
Qed.

(** C5.  Two ToC records with the same record id make
    [readTableOfContents], and with it the constructor, throw the
    non-unique-ids error; whenever the constructor succeeds, the table of
    contents holds every ToC record of the file under its own id, the ids are
    pairwise different, and no record was skipped. *)
Theorem toc_record_ids_unique (fs : filesystem) (path : string)
    (readImageData : bool) (file : list byte) :
  fs path = Some file → (28 ≤ length file)%nat →
  (∀ (i j : nat) (e1 e2 : TocRecord),
     header_signature file = mqdbFileSignature →
     header_version file = mqdbFileVersion →
     (i < j)%nat → (j < Z.to_nat (toc_count file))%nat →
     toc_entry file i = Some e1 → toc_entry file j = Some e2 →
     recordId e1 = recordId e2 →
     readTableOfContents file (FfReader_init path) {| gpos := 24; failbit := false |}
       = Throw NonUniqueIds ∧
     FfReader_ctor fs path readImageData = Throw NonUniqueIds) ∧
  (∀ r : FfReader,
     FfReader_ctor fs path readImageData = Ok r →
     toc_holds file (tableOfContents r)).
Proof.
  intros Hfs Hlen. split.
  - intros i j e1 e2 Hsig Hver Hij Hj He1 He2 Heq.
    pose proof (readTableOfContents_dup file path i j e1 e2 Hlen Hij Hj He1 He2 Heq) as H.
    split; [done|].
    unfold FfReader_ctor. rewrite Hfs, checkFileHeader_eq by lia.
    apply Z.eqb_eq in Hsig, Hver. rewrite Hsig, Hver. simpl.
    by rewrite H.
  - intros r H. apply FfReader_ctor_Ok in H as (file' & Hfs' & H).
    rewrite Hfs in Hfs'. injection Hfs' as <-.
    by apply stages_run_toc in H.
Qed.

Lemma toc_record_ids_unique_witness :
  (readTableOfContents dup_toc_file (FfReader_init sample_path)
     {| gpos := 24; failbit := false |} = Throw NonUniqueIds ∧
   FfReader_ctor (fs_of dup_toc_file) sample_path true = Throw NonUniqueIds) ∧
  toc_holds sample (tableOfContents (sample_reader sample true)).
Proof.
  split.
  - apply (proj1 (toc_record_ids_unique (fs_of dup_toc_file) sample_path true
                    dup_toc_file eq_refl ltac:(vm_compute; lia))
             1%nat 2%nat
             {| recordId := 7; size := 1; sizeAllocated := 1; offset := 112 |}
             {| recordId := 7; size := 1; sizeAllocated := 1; offset := 141 |});
      vm_compute; first [reflexivity | lia].
  - apply (proj2 (toc_record_ids_unique (fs_of sample) sample_path true
                    sample eq_refl ltac:(vm_compute; lia))).
    vm_compute. reflexivity.
Defined.

(** ** The ordered name table *)

Lemma byte_val_inj (x y : byte) : byte_val x = byte_val y → x = y.
Proof.
  unfold byte_val. intros H. apply N2Z.inj in H.
  pose proof (Byte.of_to_N x) as Hx. rewrite H, Byte.of_to_N in Hx. by injection Hx.
Qed.

Lemma str_compare_refl (a : list byte) : str_compare a a = Eq.
Proof. induction a as [|x a IH]; simpl; [done|]. by rewrite Z.compare_refl. Qed.

Lemma str_compare_eq (a b : list byte) : str_compare a b = Eq → a = b.
Proof.
  revert b. induction a as [|x a IH]; intros [|y b]; simpl; try done.
  destruct (Z.compare_spec (byte_val x) (byte_val y)) as [Heq| |]; try done.
  intros H. apply byte_val_inj in Heq as ->. f_equal. by apply IH.
Qed.

Lemma str_compare_antisym (a b : list byte) :
  str_compare b a = CompOpp (str_compare a b).
Proof.
  revert b. induction a as [|x a IH]; intros [|y b]; simpl; try done.
  rewrite (Z.compare_antisym (byte_val x) (byte_val y)).
  destruct (byte_val x ?= byte_val y); simpl; auto.
Qed.

Lemma str_compare_Gt (a b : list byte) : str_compare a b = Gt ↔ str_lt b a.
Proof.
  unfold str_lt. rewrite (str_compare_antisym a b).
  destruct (str_compare a b); simpl; split; congruence.
Qed.

Lemma str_lt_trans (a b c : list byte) : str_lt a b → str_lt b c → str_lt a c.
Proof.
  unfold str_lt. revert b c.
  induction a as [|x a IH]; intros [|y b] [|z c]; simpl; try done.
  destruct (Z.compare_spec (byte_val x) (byte_val y)) as [Hxy|Hxy|Hxy]; try done;
  destruct (Z.compare_spec (byte_val y) (byte_val z)) as [Hyz|Hyz|Hyz]; try done;
  intros H1 H2.
  - rewrite Hxy, Hyz, Z.compare_refl. eauto.
  - rewrite Hxy. by apply Z.compare_lt_iff in Hyz as ->.
  - rewrite <- Hyz. by apply Z.compare_lt_iff in Hxy as ->.
  - assert (byte_val x < byte_val z) as Hxz by lia.
    by apply Z.compare_lt_iff in Hxz as ->.
Qed.

Lemma str_lt_irrefl (a : list byte) : ¬ str_lt a a.
Proof. unfold str_lt. by rewrite str_compare_refl. Qed.

Section strmap_facts.
Context {V : Type}.

Lemma strmap_find_insert_eq (k : list byte) (v : V) (m : strmap V) :
  strmap_find k (strmap_insert k v m) = Some v.
Proof.
  induction m as [|[k' v'] m IH]; simpl.
  - by rewrite str_compare_refl.
  - destruct (str_compare k k') eqn:Hc; simpl.
    + by rewrite str_compare_refl.
    + by rewrite str_compare_refl.
    + by rewrite Hc.
Qed.

Lemma strmap_find_insert_ne (k k' : list byte) (v : V) (m : strmap V) :
  k ≠ k' → strmap_find k' (strmap_insert k v m) = strmap_find k' m.
Proof.
  intros Hne. induction m as [|[k1 v1] m IH]; simpl.
  - destruct (str_compare k' k) eqn:Hc; try done.
    apply str_compare_eq in Hc. congruence.
  - destruct (str_compare k k1) eqn:Hc; simpl.
    + apply str_compare_eq in Hc as <-.
      destruct (str_compare k' k) eqn:Hc'; try done.
      apply str_compare_eq in Hc'. congruence.
    + destruct (str_compare k' k) eqn:Hc'.
      * apply str_compare_eq in Hc'. congruence.
      * by rewrite (str_lt_trans k' k k1 Hc' Hc).
      * done.
    + by rewrite IH.
Qed.

Lemma keys_insert (k k' : list byte) (v : V) (m : strmap V) :
  k' ∈ keys (strmap_insert k v m) ↔ k' = k ∨ k' ∈ keys m.
Proof.
  unfold keys. induction m as [|[k1 v1] m IH]; simpl.
  - rewrite elem_of_cons. done.
  - destruct (str_compare k k1) eqn:Hc; simpl; rewrite !elem_of_cons.
    + apply str_compare_eq in Hc as <-. tauto.
    + tauto.
    + rewrite IH. tauto.
Qed.

Lemma strmap_insert_sorted (k : list byte) (v : V) (m : strmap V) :
  strmap_sorted m → strmap_sorted (strmap_insert k v m).
Proof.
  unfold strmap_sorted. induction m as [|[k1 v1] m IH]; simpl; intros Hs.
  - repeat constructor.
  - inversion Hs as [|? ? Hs' Hall]; subst.
    destruct (str_compare k k1) eqn:Hc; simpl.
    + apply str_compare_eq in Hc as <-. by constructor.
    + constructor; [done|]. constructor; [done|].
      eapply Forall_impl; [exact Hall|]. intros k2. by apply str_lt_trans.
    + constructor; [by apply IH|].
      apply Forall_forall. intros k2 Hk2.
      apply (keys_insert k k2 v m) in Hk2 as [->|Hk2].
      * by apply str_compare_Gt.
      * rewrite Forall_forall in Hall. by apply Hall.
Qed.

Lemma strmap_find_is_Some (k : list byte) (m : strmap V) :
  strmap_sorted m → (is_Some (strmap_find k m) ↔ k ∈ keys m).
Proof.
  unfold strmap_sorted, keys. induction m as [|[k1 v1] m IH]; simpl; intros Hs.
  - split; [by intros [? ?] | by intros ?%elem_of_nil].
  - inversion Hs as [|? ? Hs' Hall]; subst. rewrite elem_of_cons.
    destruct (str_compare k k1) eqn:Hc.
    + apply str_compare_eq in Hc as ->. split; eauto.
    + split; [by intros [? ?]|]. intros [->|Hk].
      * by rewrite str_compare_refl in Hc.
      * rewrite Forall_forall in Hall. apply Hall in Hk.
        exfalso. apply (str_lt_irrefl k). by eapply str_lt_trans.
    + rewrite IH by done. split; [by right|]. intros [->|Hk]; [|done].
      by rewrite str_compare_refl in Hc.
Qed.

End strmap_facts.

Lemma sorted_NoDup (l : list (list byte)) : StronglySorted str_lt l → NoDup l.
Proof.
  induction 1 as [|k l Hs IH Hall]; constructor; [|done].
  intros Hk. rewrite Forall_forall in Hall. apply Hall in Hk.
  by apply str_lt_irrefl in Hk.
Qed.

Lemma sorted_unique (l1 l2 : list (list byte)) :
  StronglySorted str_lt l1 → StronglySorted str_lt l2 →
  (∀ k, k ∈ l1 ↔ k ∈ l2) → l1 = l2.
Proof.
  intros H1. revert l2. induction H1 as [|a l1 Hs1 IH Hall1]; intros l2 H2 Hmem.
  - destruct l2 as [|b l2]; [done|].
    exfalso. apply (elem_of_nil b). apply Hmem. by left.
  - destruct H2 as [|b l2 Hs2 Hall2].
    { exfalso. apply (elem_of_nil a). apply Hmem. by left. }
    rewrite Forall_forall in Hall1, Hall2.
    assert (a = b) as ->.
    { assert (Ha : a ∈ b :: l2) by (apply Hmem; by left).
      assert (Hb : b ∈ a :: l1) by (apply Hmem; by left).
      apply elem_of_cons in Ha as [?|Ha]; [done|].
      apply elem_of_cons in Hb as [?|Hb]; [done|].
      apply Hall2 in Ha. apply Hall1 in Hb.
      exfalso. apply (str_lt_irrefl a). by eapply str_lt_trans. }
    f_equal. apply IH; [done|]. intros k. split; intros Hk.
    + assert (Hk' : k ∈ b :: l2) by (apply Hmem; by right).
      apply elem_of_cons in Hk' as [->|?]; [|done].
      apply Hall1 in Hk. by apply str_lt_irrefl in Hk.
    + assert (Hk' : k ∈ b :: l1) by (apply Hmem; by right).
      apply elem_of_cons in Hk' as [->|?]; [|done].
      apply Hall2 in Hk. by apply str_lt_irrefl in Hk.
Qed.

Lemma getNames_fill {V} (m : strmap V) :
  ∀ pre : list (list byte),
  fold_left (λ '(arr, i) pair, (<[i := fst pair]> arr, S i)) m
    (pre ++ replicate (length m) [], length pre)
  = (pre ++ keys m, (length pre + length m)%nat).
Proof.
  induction m as [|[k v] m IH]; intros pre; simpl.
  - f_equal. lia.
  - rewrite insert_app_r_alt, Nat.sub_diag by done. simpl.
    rewrite (cons_middle k pre), app_assoc.
    replace (S (length pre)) with (length (pre ++ [k])) by (rewrite length_app; simpl; lia).
    rewrite IH. rewrite length_app. simpl. rewrite <- app_assoc. f_equal. lia.
Qed.

Lemma getNames_keys (r : FfReader) : getNames r = keys (recordNames r).
Proof.
  unfold getNames.
  change (replicate (length (recordNames r)) [], O)
    with (@nil (list byte) ++ replicate (length (recordNames r)) [], length (@nil (list byte))).
  by rewrite (getNames_fill (recordNames r) []).
Qed.

(** ** The name list *)

Lemma name_fold_find (file : list byte) (toc : gmap Z TocRecord)
    (es : list (list byte * Z)) :
  ∀ (names : strmap Z) (name : list byte) (id : Z),
  strmap_find name (fold_left (name_step file toc) es names) = Some id ↔
  strmap_find name names = Some id ∨
  (strmap_find name names = None ∧
   ∃ i, es !! i = Some (name, id) ∧ retained file toc id = true ∧
        ∀ j e, (j < i)%nat → es !! j = Some e → fst e = name →
               retained file toc (snd e) = false).
Proof.
  induction es as [|[nm k] es IH]; intros names name id; simpl.
  - split; [by left|]. intros [?|(_ & i & Hi & _)]; [done|].
    by rewrite lookup_nil in Hi.
  - rewrite IH. unfold name_step. simpl.
    destruct (retained file toc k) eqn:Hret.
    + destruct (strmap_find nm names) as [k0|] eqn:Hfind.
      * (* the name is already present *)
        split.
        -- intros [?|(Hnone & i & Hi & Hr & Hfirst)]; [by left|].
           right. split; [done|]. exists (S i). split_and!; [done|done|].
           intros [|j] e Hj He Hname.
           ++ simpl in He. injection He as <-. simpl in Hname. congruence.
           ++ simpl in He. apply (Hfirst j); [lia|done|done].
        -- intros [?|(Hnone & [|i] & Hi & Hr & Hfirst)]; [by left| |].
           ++ simpl in Hi. injection Hi as -> ->. congruence.
           ++ right. split; [done|]. exists i. split_and!; [done|done|].
              intros j e Hj He Hname. apply (Hfirst (S j)); [lia|done|done].
      * (* the name is inserted *)
        destruct (decide (nm = name)) as [->|Hne].
        -- rewrite strmap_find_insert_eq. split.
           ++ intros [Hk|(? & _)]; [|done]. injection Hk as ->.
              right. split; [done|]. exists O. split_and!; [done|done|].
              intros j e Hj. lia.
           ++ intros [?|(_ & [|i] & Hi & Hr & Hfirst)]; [congruence| |].
              ** simpl in Hi. injection Hi as ->. by left.
              ** exfalso. specialize (Hfirst O (name, k) ltac:(lia) eq_refl eq_refl).
                 simpl in Hfirst. congruence.
        -- rewrite strmap_find_insert_ne by done. split.
           ++ intros [?|(Hnone & i & Hi & Hr & Hfirst)]; [by left|].
              right. split; [done|]. exists (S i). split_and!; [done|done|].
              intros [|j] e Hj He Hname.
              ** simpl in He. injection He as <-. simpl in Hname. congruence.
              ** simpl in He. apply (Hfirst j); [lia|done|done].
           ++ intros [?|(Hnone & [|i] & Hi & Hr & Hfirst)]; [by left| |].
              ** simpl in Hi. injection Hi as -> ->. congruence.
              ** right. split; [done|]. exists i. split_and!; [done|done|].
                 intros j e Hj He Hname. apply (Hfirst (S j)); [lia|done|done].
    + split.
      * intros [?|(Hnone & i & Hi & Hr & Hfirst)]; [by left|].
        right. split; [done|]. exists (S i). split_and!; [done|done|].
        intros [|j] e Hj He Hname.
        -- simpl in He. by injection He as <-.
        -- simpl in He. apply (Hfirst j); [lia|done|done].
      * intros [?|(Hnone & [|i] & Hi & Hr & Hfirst)]; [by left| |].
        -- simpl in Hi. injection Hi as -> ->. congruence.
        -- right. split; [done|]. exists i. split_and!; [done|done|].
           intros j e Hj He Hname. apply (Hfirst (S j)); [lia|done|done].
Qed.

Lemma name_string_full (raw : list byte) :
  (255 ≤ length raw)%nat → is_Some (name_string raw).
Proof.
  intros H. unfold name_string. destruct (cstring (take 255 raw)); [eauto|].
  destruct (Nat.leb_spec 255 (length raw)); [eauto|lia].
Qed.

Lemma seekg_ok (p : Z) (s : ifstream) :
  failbit s = false → 0 ≤ p → seekg p s = {| gpos := p; failbit := false |}.
Proof.
  intros Hf Hp. unfold seekg. rewrite Hf.
  destruct (Z.ltb_spec p 0); [lia|done].
Qed.

Lemma name_loop_fold (file : list byte) (r : FfReader) (base : Z) (n : nat) :
  ∀ (k : nat) (names : strmap Z),
  0 ≤ base →
  base + 4 + 260 * Z.of_nat (k + n) ≤ Z.of_nat (length file) →
  (∀ i, (k ≤ i < k + n)%nat →
        entry_resolvable file (tableOfContents r) (snd (name_entry file base i)) = true) →
  readNameList_loop file r n names
    {| gpos := base + 4 + 260 * Z.of_nat k; failbit := false |}
  = Ok (fold_left (name_step file (tableOfContents r))
          (name_entry file base <$> seq k n) names,
        {| gpos := base + 4 + 260 * Z.of_nat (k + n); failbit := false |}).
Proof.
  induction n as [|n IH]; intros k names Hbase Hin Hres.
  - simpl. by rewrite Nat.add_0_r.
  - cbn [readNameList_loop seq fmap list_fmap fold_left].
    rewrite stream_read_inside by (simpl; first [done | lia]).
    rewrite readUint32_file_inside by (simpl; first [done | lia]).
    cbn [gpos].
    set (p := base + 4 + 260 * Z.of_nat k).
    assert (Hnext : p + 256 + 4 = base + 4 + 260 * Z.of_nat (S k)) by lia.
    assert (Hend : (S k + n = k + S n)%nat) by lia.
    specialize (IH (S k)). rewrite Hend in IH.
    assert (Hres' : ∀ i, (S k ≤ i < k + S n)%nat →
              entry_resolvable file (tableOfContents r) (snd (name_entry file base i)) = true).
    { intros i Hi. apply Hres. lia. }
    specialize (Hres k ltac:(lia)).
    change (Z.of_nat 256) with 256.
    destruct (name_string_full (take 256 (drop (Z.to_nat p) file))) as [str Hstr].
    { rewrite length_take, length_drop. lia. }
    set (id := le32 (take 4 (drop (Z.to_nat (p + 256)) file))).
    assert (Hentry : name_entry file base k = (str, id)).
    { unfold name_entry. fold p. by rewrite Hstr. }
    rewrite Hentry in Hres |- *. cbn [snd] in Hres.
    replace (p + 256 + 4) with (base + 4 + 260 * Z.of_nat (S k)) by lia.
    unfold name_step at 2. cbn [fst snd].
    unfold findTocRecord, retained, entry_resolvable in *.
    destruct (tableOfContents r !! id) as [e|] eqn:Htoc; [|by apply IH].
    apply andb_true_iff in Hres as [Hres Hsig]. apply andb_true_iff in Hres as [Hoff Hhdr].
    apply Z.leb_le in Hoff, Hhdr. apply Z.eqb_eq in Hsig.
    unfold tellg. cbn [failbit gpos].
    rewrite seekg_ok by (simpl; first [done | lia]).
    rewrite stream_read_inside by (simpl; first [done | unfold sizeof_MqrcHeader; lia]).
    cbn [gpos]. fold (header_of file e).
    assert (Hlen : length (header_of file e) = 28%nat).
    { unfold header_of, sizeof_MqrcHeader. rewrite length_take, length_drop. lia. }
    assert (Hsig' : field32 (header_of file e) 0 = Some mqrcSignature).
    { unfold field32. rewrite Hlen. simpl. by rewrite drop_0, Hsig. }
    rewrite Hsig'. cbn [defined mbind outcome_mbind outcome_bind].
    rewrite Z.eqb_refl. cbn [negb].
    rewrite seekg_ok by (simpl; first [done | lia]).
    destruct (field32 (header_of file e) 20) as [used|] eqn:Hused.
    2: { unfold field32 in Hused. rewrite Hlen in Hused. simpl in Hused. discriminate. }
    cbn [defined mbind outcome_mbind outcome_bind].
    destruct (used =? 0); cbn [negb]; [by apply IH|].
    rewrite Hstr. cbn [defined mbind outcome_mbind outcome_bind].
    destruct (strmap_find str names); by apply IH.
Qed.

Lemma name_loop_sorted (file : list byte) (r : FfReader) (n : nat) :
  ∀ (names names' : strmap Z) (s s' : ifstream),
  readNameList_loop file r n names s = Ok (names', s') →
  strmap_sorted names → strmap_sorted names'.
Proof.
  induction n as [|n IH]; intros names names' s s' H Hs; simpl in H.
  - by injection H as <- <-.
  - destruct (stream_read file 256 s) as [name s1].
    destruct (readUint32_file file s1) as [id s2].
    destruct (findTocRecord r id) as [tocRecord|]; [|by eapply IH].
    destruct (stream_read file sizeof_MqrcHeader _) as [recordHeader s4].
    apply bind_Ok in H as (signature & _ & H).
    destruct (negb _); [discriminate|].
    apply bind_Ok in H as (used & _ & H).
    destruct (used =? 0); [by eapply IH|].
    apply bind_Ok in H as (nameString & _ & H).
    destruct (strmap_find nameString names); [by eapply IH|].
    eapply IH; [done|]. by apply strmap_insert_sorted.
Qed.

Lemma readNameList_sorted (file : list byte) (r r' : FfReader) (s s' : ifstream) :
  readNameList file r s = Ok (r', s') →
  strmap_sorted (recordNames r) → strmap_sorted (recordNames r').
Proof.
  unfold readNameList. destruct (findTocRecord r NameList); [|discriminate].
  destruct (readUint32_file _ _) as [namesTotal s2]. intros H Hs.
  apply bind_Ok in H as ([names s3] & Hloop & H). injection H as <- <-. simpl.
  by eapply name_loop_sorted.
Qed.

(** C4.  On a container whose name list lies inside the file and whose
    named records carry valid sub-record headers, [readNameList] completes,
    and the name table maps [name] to [id] exactly when [(name, id)] is the
    first entry with that name whose id has a ToC record with [used ≠ 0]:
    entries with an unknown id, an unused record, or a name inserted before
    are skipped without an error. *)
Theorem readNameList_first_retained (file : list byte) (r : FfReader) (s : ifstream) :
  failbit s = false → recordNames r = [] → names_wellformed file r = true →
  ∃ (r' : FfReader) (s' : ifstream),
    readNameList file r s = Ok (r', s') ∧
    ∀ (name : list byte) (id : Z),
      strmap_find name (recordNames r') = Some id ↔ first_retained file r name id.
Proof.
  intros Hf Hempty Hwf. unfold names_wellformed in Hwf. unfold readNameList, first_retained.
  destruct (findTocRecord r NameList) as [namesList|]; [|discriminate].
  set (base := offset namesList + 28) in *. cbv zeta in Hwf.
  set (n := names_count file base) in *.
  apply andb_true_iff in Hwf as [Hwf Hres]. apply andb_true_iff in Hwf as [Hoff Hin].
  apply Z.leb_le in Hoff, Hin.
  assert (Hn : 0 ≤ n) by apply le32_nonneg.
  rewrite forallb_forall in Hres.
  change (Z.of_nat sizeof_MqrcHeader) with 28. fold base.
  rewrite seekg_ok by (first [done | lia]).
  rewrite readUint32_file_inside by (simpl; first [done | lia]).
  cbn [gpos]. fold (names_count file base). fold n.
  pose proof (name_loop_fold file r base (Z.to_nat n) O (recordNames r)) as Hloop.
  replace (base + 4 + 260 * Z.of_nat 0) with (base + 4) in Hloop by lia.
  rewrite Hloop; clear Hloop.
  2: lia.
  2: { simpl. lia. }
  2: { intros i Hi. apply Hres. apply in_seq. lia. }
  cbn [mbind outcome_mbind outcome_bind].
  eexists _, _. split; [done|]. cbn [recordNames set_recordNames].
  subst n base.
  intros name id. rewrite name_fold_find, Hempty. cbn [strmap_find]. split.
  - intros [?|(_ & i & Hi & Hr & Hfirst)]; [done|].
    rewrite list_lookup_fmap in Hi.
    destruct (seq 0 _ !! i) as [i'|] eqn:Hseq; [|done].
    apply lookup_seq in Hseq as [-> Hlt].
    change (Some (name_entry file (offset namesList + 28) i) = Some (name, id)) in Hi. apply (inj Some) in Hi.
    exists namesList, i. split_and!; [done|exact Hlt|exact Hi|done|].
    intros j Hj Hname. apply (Hfirst j); [done| |done].
    rewrite list_lookup_fmap, lookup_seq_lt by lia. done.
  - intros (nl & i & Hnl & Hi & Hentry & Hr & Hfirst). injection Hnl as <-.
    right. split; [done|]. exists i. split_and!; [|done|].
    + rewrite list_lookup_fmap, lookup_seq_lt by lia. simpl. by rewrite Hentry.
    + intros j e Hj He Hname. rewrite list_lookup_fmap, lookup_seq_lt in He by lia.
      simpl in He. injection He as <-. by apply Hfirst.
Qed.

Lemma readNameList_first_retained_witness :
  ∃ (r' : FfReader) (s' : ifstream),
    readNameList sample sample_after_toc stream_open = Ok (r', s') ∧
    ∀ (name : list byte) (id : Z),
      strmap_find name (recordNames r') = Some id ↔
      first_retained sample sample_after_toc name id.
Proof.
  apply (readNameList_first_retained sample sample_after_toc stream_open).
  - reflexivity.
  - vm_compute. reflexivity.
  - vm_compute. reflexivity.
Defined.

(** ** [getNames] *)

Lemma readTableOfContents_fields (file : list byte) (r r' : FfReader) (s s' : ifstream) :
  readTableOfContents file r s = Ok (r', s') →
  r' = set_tableOfContents (tableOfContents r') r.
Proof.
  unfold readTableOfContents.
  destruct (readUint32_file file s) as [tocOffset s1].
  destruct (readUint32_file file _) as [entriesTotal s3]. intros H.
  apply bind_Ok in H as ([toc s4] & _ & H). by injection H as <- <-.
Qed.

Lemma ctor_names_sorted (fs : filesystem) (path : string) (b : bool) (r : FfReader) :
  FfReader_ctor fs path b = Ok r → strmap_sorted (recordNames r).
Proof.
  intros H. apply FfReader_ctor_Ok in H
    as (file & _ & s1 & r1 & s2 & r2 & s3 & r3 & s4 & _ & H2 & H3 & H4 & H5).
  apply readTableOfContents_fields in H2.
  apply readNameList_sorted in H3.
  2: { rewrite H2. simpl. constructor. }
  apply readIndex_id in H4. subst r3.
  destruct b.
  - destruct H5 as [s5 H5]. apply readImages_fields in H5. by rewrite H5.
  - by subst r.
Qed.

(** C9.  [getNames] lists the names of the name table in strictly
    ascending byte-wise lexicographic order, each once, and nothing else; the
    result depends only on the set of retained names, not on the order of the
    name-list record. *)
Theorem getNames_ascending (fs : filesystem) (path : string) (readImageData : bool)
    (r : FfReader) :
  FfReader_ctor fs path readImageData = Ok r →
  StronglySorted str_lt (getNames r) ∧
  NoDup (getNames r) ∧
  (∀ name : list byte,
     name ∈ getNames r ↔ is_Some (strmap_find name (recordNames r))) ∧
  (∀ (fs' : filesystem) (path' : string) (readImageData' : bool) (r' : FfReader),
     FfReader_ctor fs' path' readImageData' = Ok r' →
     (∀ name : list byte,
        is_Some (strmap_find name (recordNames r')) ↔
        is_Some (strmap_find name (recordNames r))) →
     getNames r' = getNames r).
Proof.
  intros H. apply ctor_names_sorted in H as Hs.
  rewrite getNames_keys. split_and!.
  - exact Hs.
  - by apply sorted_NoDup.
  - intros name. by rewrite strmap_find_is_Some.
  - intros fs' path' b' r' H' Hsame. apply ctor_names_sorted in H' as Hs'.
    rewrite getNames_keys. apply sorted_unique; [done|done|].
    intros name. rewrite <- !strmap_find_is_Some by done. apply Hsame.
Qed.

Lemma getNames_ascending_witness :
  StronglySorted str_lt (getNames (sample_reader sample true)) ∧
  NoDup (getNames (sample_reader sample true)) ∧
  (∀ name : list byte,
     name ∈ getNames (sample_reader sample true) ↔
     is_Some (strmap_find name (recordNames (sample_reader sample true)))) ∧
  (∀ (fs' : filesystem) (path' : string) (readImageData' : bool) (r' : FfReader),
     FfReader_ctor fs' path' readImageData' = Ok r' →
     (∀ name : list byte,
        is_Some (strmap_find name (recordNames r')) ↔
        is_Some (strmap_find name (recordNames (sample_reader sample true)))) →
     getNames r' = getNames (sample_reader sample true)).
Proof.
  apply (getNames_ascending (fs_of sample) sample_path true (sample_reader sample true)).
  vm_compute. reflexivity.
Defined.

(** ** The [readImageData] flag *)

Lemma fs_of_path (file : list byte) : fs_of file sample_path = Some file.
Proof. reflexivity. Qed.

(** C6, as stated, fails: constructed with [readImageData = false] the
    sample yields a reader although the images stage was not run on it. *)
Lemma ctor_without_images_counterexample :
  FfReader_ctor (fs_of sample) sample_path false = Ok (sample_reader sample false) ∧
  ¬ stages_run sample sample_path true (sample_reader sample false).
Proof.
  split; [vm_compute; reflexivity|].
  intros Hrun.
  pose proof (proj2 (FfReader_ctor_Ok (fs_of sample) sample_path true
                       (sample_reader sample false))
                (ex_intro _ sample (conj (fs_of_path sample) Hrun))) as H.
  assert (H' : FfReader_ctor (fs_of sample) sample_path true
               = Ok (sample_reader sample true)) by (vm_compute; reflexivity).
  pose proof (f_equal (λ o, match o with
                            | Ok r => base.size (packedImages r)
                            | _ => O
                            end) (eq_trans (eq_sym H') H)) as E.
  vm_compute in E. discriminate.
Qed.

(** C6, amended.  A reader is produced only after header validation, ToC
    parsing, name-list resolution and index parsing have run, in this order;
    images parsing follows exactly when [readImageData] is set. *)
Theorem ctor_runs_stages (fs : filesystem) (path : string) (readImageData : bool)
    (r : FfReader) :
  FfReader_ctor fs path readImageData = Ok r →
  ∃ file, fs path = Some file ∧ stages_run file path readImageData r.
Proof. apply FfReader_ctor_Ok. Qed.

Lemma ctor_runs_stages_witness :
  (∃ file, fs_of sample sample_path = Some file ∧
           stages_run file sample_path true (sample_reader sample true)) ∧
  (∃ file, fs_of sample sample_path = Some file ∧
           stages_run file sample_path false (sample_reader sample false)).
Proof.
  split.
  - apply (ctor_runs_stages (fs_of sample) sample_path true (sample_reader sample true)).
    vm_compute. reflexivity.
  - apply (ctor_runs_stages (fs_of sample) sample_path false (sample_reader sample false)).
    vm_compute. reflexivity.
Defined.

(** ** The index *)

(** C1.  The index payload of the sample decodes to one image entry (id 12)
    and one animation entry (the sentinel id), yet after construction the
    index arrays of the reader are empty: [readIndex] appends to copies of
    [indexData.images] and [indexData.animations] and drops them. *)
Theorem readIndex_discards_entries :
  findTocRecord_name (sample_reader sample true) indexOptRecordName
    = Some {| recordId := 10; size := 35; sizeAllocated := 35; offset := 2012 |} ∧
  readIndex_entry sample_index 4 = Ok (12, bytes_of_string "B", 0, 1077, 18) ∧
  readIndex_entry sample_index 18
    = Ok (RecordId_max, bytes_of_string "ANIM", 0, 1077, 35) ∧
  FfReader_ctor (fs_of sample) sample_path true = Ok (sample_reader sample true) ∧
  indexData (sample_reader sample true) = empty_IndexData.
Proof. repeat split; vm_compute; reflexivity. Qed.

(** ** The images payload *)

Lemma quiet_bind {A B} (m : outcome A) (f : A → outcome B) :
  quiet m → (∀ a, m = Ok a → quiet (f a)) → quiet (m ≫= f).
Proof. destruct m; simpl; auto. Qed.

Lemma quiet_defined {A} (o : option A) : quiet (defined o).
Proof. by destruct o. Qed.

(** Reads from one payload buffer. *)
Section buffer.
Variable contents : list byte.

Lemma readUint32_quiet (off : Z) : quiet (readUint32 contents off).
Proof. unfold readUint32. by destruct (_ && _). Qed.

Lemma cstring_at_quiet (off : Z) : quiet (cstring_at contents off).
Proof. unfold cstring_at. destruct (0 <=? off); [apply quiet_defined | done]. Qed.

Lemma readUint32_Ok (off v off' : Z) :
  readUint32 contents off = Ok (v, off') →
  0 ≤ off ∧ off' = off + 4 ∧ off' ≤ Z.of_nat (length contents).
Proof.
  unfold readUint32. destruct (_ && _) eqn:Hb; [|discriminate].
  apply andb_true_iff in Hb as [H0 H1]. apply Z.leb_le in H0, H1.
  intros H. injection H as _ <-. lia.
Qed.

Lemma cstring_length (l str : list byte) :
  cstring l = Some str → (length str + 1 ≤ length l)%nat.
Proof.
  revert str. induction l as [|b l IH]; intros str; simpl; [discriminate|].
  destruct (is_zero b).
  - intros H. injection H as <-. simpl. lia.
  - destruct (cstring l) as [str'|]; [|discriminate]. simpl.
    intros H. injection H as <-. specialize (IH str' eq_refl). simpl. lia.
Qed.

Lemma cstring_at_Ok (off : Z) (name : list byte) :
  cstring_at contents off = Ok name →
  0 ≤ off ∧ off + Z.of_nat (length name) + 1 ≤ Z.of_nat (length contents).
Proof.
  unfold cstring_at. destruct (Z.leb_spec 0 off) as [H0|]; [|discriminate].
  destruct (cstring _) as [str|] eqn:Hc; [|discriminate]. simpl.
  intros H. injection H as <-. apply cstring_length in Hc.
  rewrite length_drop in Hc. lia.
Qed.

Ltac read32 H v off H' :=
  apply bind_Ok in H as ([v off] & H' & H); apply readUint32_Ok in H'.

Lemma readImages_part_quiet (off : Z) :
  quiet (readImages_part contents off).
Proof.
  unfold readImages_part.
  repeat (apply quiet_bind; [apply readUint32_quiet | intros [? ?] _]). done.
Qed.

Lemma readImages_part_Ok (off : Z) (part : ImagePart) (off' : Z) :
  readImages_part contents off = Ok (part, off') →
  0 ≤ off ∧ off' = off + 24 ∧ off' ≤ Z.of_nat (length contents).
Proof.
  unfold readImages_part. intros H.
  read32 H v1 o1 H1. read32 H v2 o2 H2. read32 H v3 o3 H3.
  read32 H v4 o4 H4. read32 H v5 o5 H5. read32 H v6 o6 H6.
  injection H as _ <-. lia.
Qed.

Lemma readImages_parts_quiet (n : nat) :
  ∀ (off : Z) (acc : list ImagePart), quiet (readImages_parts contents n off acc).
Proof.
  induction n as [|n IH]; intros off acc; simpl; [done|].
  apply quiet_bind; [apply readImages_part_quiet | intros [? ?] _]. apply IH.
Qed.

Lemma readImages_parts_Ok (n : nat) :
  ∀ (off : Z) (acc acc' : list ImagePart) (off' : Z),
  0 ≤ off ≤ Z.of_nat (length contents) →
  readImages_parts contents n off acc = Ok (acc', off') →
  advances (Z.of_nat (length contents)) off off'.
Proof.
  unfold advances.
  induction n as [|n IH]; intros off acc acc' off' Hoff H; simpl in H.
  - injection H as _ <-. lia.
  - apply bind_Ok in H as ([part o1] & H1 & H). apply readImages_part_Ok in H1.
    apply IH in H; lia.
Qed.

Lemma readImages_frame_quiet (off : Z) :
  quiet (readImages_frame contents off).
Proof.
  unfold readImages_frame.
  apply quiet_bind; [apply cstring_at_quiet | intros ? _].
  repeat (apply quiet_bind; [apply readUint32_quiet | intros [? ?] _]).
  apply quiet_bind; [apply readImages_parts_quiet | intros [? ?] _]. done.
Qed.

(** A frame takes at least its terminator and three 32-bit fields. *)
Lemma readImages_frame_Ok (off : Z) (frame : ImageFrame) (off' : Z) :
  readImages_frame contents off = Ok (frame, off') →
  advances (Z.of_nat (length contents)) off off' ∧ off + 13 ≤ off'.
Proof.
  unfold readImages_frame, advances. intros H.
  apply bind_Ok in H as (name & Hn & H). apply cstring_at_Ok in Hn.
  read32 H v1 o1 H1. read32 H v2 o2 H2. read32 H v3 o3 H3.
  apply bind_Ok in H as ([ps o4] & H4 & H).
  apply readImages_parts_Ok in H4; [|lia]. unfold advances in H4.
  injection H as _ <-. lia.
Qed.

Lemma readImages_frames_quiet (n : nat) :
  ∀ (off : Z) (acc : list ImageFrame), quiet (readImages_frames contents n off acc).
Proof.
  induction n as [|n IH]; intros off acc; simpl; [done|].
  apply quiet_bind; [apply readImages_frame_quiet | intros [? ?] _]. apply IH.
Qed.

Lemma readImages_frames_Ok (n : nat) :
  ∀ (off : Z) (acc acc' : list ImageFrame) (off' : Z),
  0 ≤ off ≤ Z.of_nat (length contents) →
  readImages_frames contents n off acc = Ok (acc', off') →
  advances (Z.of_nat (length contents)) off off'.
Proof.
  unfold advances.
  induction n as [|n IH]; intros off acc acc' off' Hoff H; simpl in H.
  - injection H as _ <-. lia.
  - apply bind_Ok in H as ([frame o1] & H1 & H).
    apply readImages_frame_Ok in H1 as [H1 _]. unfold advances in H1.
    apply IH in H; lia.
Qed.

Lemma read_palette_quiet (off : Z) : quiet (read_palette contents off).
Proof. unfold read_palette. by destruct (_ && _). Qed.

Lemma read_palette_Ok (off : Z) (p : list byte) :
  read_palette contents off = Ok p →
  0 ≤ off ∧ off + 1035 ≤ Z.of_nat (length contents).
Proof.
  unfold read_palette. destruct (_ && _) eqn:Hb; [|discriminate].
  apply andb_true_iff in Hb as [H0 H1]. apply Z.leb_le in H0, H1.
  unfold paletteSize in H1. intros _. lia.
Qed.

Lemma readImages_body_quiet (off : Z) :
  quiet (readImages_body contents off).
Proof.
  unfold readImages_body.
  apply quiet_bind; [apply read_palette_quiet | intros ? _].
  apply quiet_bind; [apply readUint32_quiet | intros [? ?] _].
  apply quiet_bind; [apply readImages_frames_quiet | intros [? ?] _]. done.
Qed.

Lemma readImages_body_Ok (off key : Z) (img : PackedImage) (off' : Z) :
  readImages_body contents off = Ok (key, img, off') →
  0 ≤ off ∧ off + 1039 ≤ off' ∧ off' ≤ Z.of_nat (length contents).
Proof.
  unfold readImages_body. intros H.
  apply bind_Ok in H as (p & Hp & H). apply read_palette_Ok in Hp.
  unfold paletteSize in H.
  read32 H v1 o1 H1.
  apply bind_Ok in H as ([fs o2] & H2 & H).
  apply readImages_frames_Ok in H2; [|lia]. unfold advances in H2.
  injection H as _ _ <-. lia.
Qed.

Lemma readImages_while_no_throw (recordSize : Z) (fuel : nat) :
  ∀ (off : Z) (packed : gmap Z PackedImage) (e : error),
  readImages_while fuel contents recordSize off packed ≠ Throw e.
Proof.
  induction fuel as [|fuel IH]; intros off packed e; simpl.
  - by destruct (off <? recordSize).
  - destruct (off <? recordSize); [|done].
    pose proof (readImages_body_quiet off) as Hq.
    destruct (readImages_body contents off) as [[[key img] off']| | |]; simpl; try done.
Qed.

Lemma readImages_while_fuel (recordSize : Z) (fuel : nat) :
  ∀ (off : Z) (packed : gmap Z PackedImage),
  recordSize - off ≤ Z.of_nat fuel →
  readImages_while fuel contents recordSize off packed ≠ OutOfFuel.
Proof.
  induction fuel as [|fuel IH]; intros off packed Hfuel; simpl.
  - destruct (Z.ltb_spec off recordSize); [lia|done].
  - destruct (off <? recordSize); [|done].
    pose proof (readImages_body_quiet off) as Hq.
    destruct (readImages_body contents off) as [[[key img] off']| | |] eqn:Hb;
      simpl; try done.
    apply readImages_body_Ok in Hb. apply IH. lia.
Qed.

Lemma readImages_while_consumes (fuel : nat) :
  ∀ (off : Z) (packed packed' : gmap Z PackedImage) (off' : Z),
  off ≤ Z.of_nat (length contents) →
  readImages_while fuel contents (Z.of_nat (length contents)) off packed
    = Ok (off', packed') →
  off' = Z.of_nat (length contents).
Proof.
  induction fuel as [|fuel IH]; intros off packed packed' off' Hoff H; simpl in H.
  - destruct (Z.ltb_spec off (Z.of_nat (length contents))); [discriminate|].
    injection H as <- _. lia.
  - destruct (Z.ltb_spec off (Z.of_nat (length contents))).
    + apply bind_Ok in H as ([[key img] o1] & Hb & H).
      apply readImages_body_Ok in Hb. apply IH in H; [done|lia].
    + injection H as <- _. lia.
Qed.

End buffer.

Lemma read_vector_length (file : list byte) (n : Z) (s : ifstream) :
  length (fst (read_vector file n s)) = Z.to_nat n.
Proof.
  unfold read_vector, stream_read. destruct (failbit s); simpl.
  - rewrite length_replicate. lia.
  - rewrite length_app, length_replicate, length_take. lia.
Qed.

Lemma readImages_no_throw (file : list byte) (r : FfReader) (s : ifstream) (e : error) :
  readImages file r s ≠ Throw e.
Proof.
  unfold readImages. destruct (findTocRecord_name r imagesOptRecordName); [|done].
  destruct (read_vector _ _ _) as [contents s2]. unfold readImages_decode.
  pose proof (readImages_while_no_throw contents (size t) (S (length contents)) 0
                (packedImages r) e) as H.
  destruct (readImages_while _ _ _ _ _) as [[o p]| | |]; simpl; congruence.
Qed.

Lemma readImages_fuel (file : list byte) (r : FfReader) (s : ifstream) :
  readImages file r s ≠ OutOfFuel.
Proof.
  unfold readImages. destruct (findTocRecord_name r imagesOptRecordName); [|done].
  pose proof (read_vector_length file (size t)
                (seekg ((offset t + Z.of_nat sizeof_MqrcHeader) mod 2 ^ 32) s)) as Hlen.
  destruct (read_vector _ _ _) as [contents s2]. simpl in Hlen.
  unfold readImages_decode.
  pose proof (readImages_while_fuel contents (size t) (S (length contents)) 0
                (packedImages r) ltac:(lia)) as H.
  destruct (readImages_while _ _ _ _ _) as [[o p]| | |]; simpl; congruence.
Qed.

(** C10.  Every completed iteration of the [while] loop of [readImages]
    moves the byte offset forward by at least 1039 bytes (the 1035-byte
    palette and the frame count), so the loop ends: fuel of at least
    [recordSize - byteOffset] is never exhausted, and [readImages] supplies
    it. *)
Theorem readImages_loop_terminates :
  (∀ (contents : list byte) (off key : Z) (img : PackedImage) (off' : Z),
     readImages_body contents off = Ok (key, img, off') → off + 1039 ≤ off') ∧
  (∀ (contents : list byte) (recordSize : Z) (fuel : nat) (off : Z)
     (packed : gmap Z PackedImage),
     recordSize - off ≤ Z.of_nat fuel →
     readImages_while fuel contents recordSize off packed ≠ OutOfFuel) ∧
  (∀ (file : list byte) (r : FfReader) (s : ifstream),
     readImages file r s ≠ OutOfFuel).
Proof.
  split_and!.
  - intros contents off key img off' H. apply readImages_body_Ok in H. lia.
  - intros contents recordSize fuel off packed. apply readImages_while_fuel.
  - apply readImages_fuel.
Qed.

Lemma readImages_loop_terminates_witness :
  0 + 1039 ≤ 1077 ∧
  readImages_while 1078 sample_images 1077 0 ∅ ≠ OutOfFuel ∧
  readImages sample (sample_reader sample false) stream_open ≠ OutOfFuel.
Proof.
  split_and!.
  - apply (proj1 readImages_loop_terminates sample_images 0 0
             {| palette := take 1035 sample_images;
                frames := [ {| parts := [ {| sourceX := 1; sourceY := 2;
                                             targetX := 3; targetY := 4;
                                             part_width := 5; part_height := 6 |} ];
                               frame_name := bytes_of_string "f";
                               frame_width := 2; frame_height := 3 |} ] |} 1077).
    vm_compute. reflexivity.
  - apply (proj1 (proj2 readImages_loop_terminates) sample_images 1077 1078%nat 0 ∅).
    lia.
  - apply (proj2 (proj2 readImages_loop_terminates)).
Defined.

(** C2.  With the images payload of the sample cut from 1077 to 1076 bytes
    the container is otherwise intact: the table of contents declares 1076
    bytes for '-IMAGES.OPT' and construction without the images succeeds.
    Decoding then reads the last field of the only part, at bytes 1073..1076
    of the 1076-byte buffer: the read goes past the end of the buffer, and
    [readImages] and the constructor report no error. *)
Theorem readImages_reads_past_buffer :
  findTocRecord_name (sample_reader sample_cut false) imagesOptRecordName
    = Some {| recordId := 11; size := 1076; sizeAllocated := 1076; offset := 2075 |} ∧
  FfReader_ctor (fs_of sample_cut) sample_path false
    = Ok (sample_reader sample_cut false) ∧
  readUint32 (take 1076 sample_images) 1069 = Ok (5, 1073) ∧
  readUint32 (take 1076 sample_images) 1073 = Undefined ∧
  readImages_decode (take 1076 sample_images) 1076 ∅ = Undefined ∧
  readImages sample_cut (sample_reader sample_cut false) stream_open = Undefined ∧
  FfReader_ctor (fs_of sample_cut) sample_path true = Undefined.
Proof. repeat split; vm_compute; reflexivity. Qed.

(** [readImages] has no error path of its own, and a decoding of a payload
    of [L] bytes that completes with every read inside the buffer has
    consumed exactly [L] bytes. *)
Lemma readImages_consumes_payload :
  (∀ (file : list byte) (r : FfReader) (s : ifstream) (e : error),
     readImages file r s ≠ Throw e) ∧
  (∀ (contents : list byte) (packed packed' : gmap Z PackedImage) (off : Z),
     readImages_decode contents (Z.of_nat (length contents)) packed = Ok (off, packed') →
     off = Z.of_nat (length contents)).
Proof.
  split.
  - apply readImages_no_throw.
  - intros contents packed packed' off H. unfold readImages_decode in H.
    apply readImages_while_consumes in H; [done|lia].
Qed.

(** ** Record data *)

Lemma resize_length (data : list byte) (n : nat) : length (resize data n) = n.
Proof. unfold resize. rewrite length_app, length_take, length_replicate. lia. Qed.

Lemma getRecordData_record_closed (fs : filesystem) (r : FfReader)
    (record : TocRecord) (data : list byte) :
  fs (ffFilePath r) = None → getRecordData_record fs r record data = (false, data).
Proof. intros H. unfold getRecordData_record. by rewrite H. Qed.

Lemma getRecordData_record_open (fs : filesystem) (r : FfReader)
    (record : TocRecord) (data file : list byte) :
  fs (ffFilePath r) = Some file →
  fst (getRecordData_record fs r record data) = true ∧
  length (snd (getRecordData_record fs r record data)) = Z.to_nat (size record).
Proof.
  intros H. unfold getRecordData_record. rewrite H.
  destruct (stream_read _ _ _) as [got s'] eqn:Hread. simpl. split; [done|].
  assert (Hgot : (length got ≤ Z.to_nat (size record))%nat).
  { unfold stream_read in Hread. destruct (failbit _).
    - injection Hread as <- _. simpl. lia.
    - injection Hread as <- _. rewrite length_take. lia. }
  rewrite length_app, length_drop, resize_length. lia.
Qed.

Lemma getRecordData_record_inside (fs : filesystem) (r : FfReader)
    (record : TocRecord) (data file : list byte) :
  fs (ffFilePath r) = Some file → payload_inside file record →
  getRecordData_record fs r record data = (true, payload_of file record).
Proof.
  intros H (Hoff & Hsize & Hin). unfold getRecordData_record, payload_of. rewrite H.
  unfold sizeof_MqrcHeader. change (Z.of_nat 28) with 28.
  rewrite seekg_ok by (simpl; first [done | lia]).
  rewrite stream_read_inside by (simpl; first [done | lia]).
  cbv beta iota zeta. cbn [gpos]. f_equal.
  rewrite (drop_ge (resize data _)); [by rewrite app_nil_r|].
  rewrite resize_length, length_take, length_drop. lia.
Qed.

Example sample_payload_12 :
  payload_of sample sample_record_12 = bytes_of_string "hello".
Proof. vm_compute. reflexivity. Qed.

(** C3, as stated, fails: record 16 of the truncated sample resolves, its
    payload ends one byte after the end of the file, and the fetch still
    reports success. *)
Lemma getRecordData_short_read_counterexample :
  FfReader_ctor (fs_of sample_short) sample_path true
    = Ok (sample_reader sample_short true) ∧
  findTocRecord (sample_reader sample_short true) 16
    = Some {| recordId := 16; size := 4; sizeAllocated := 4; offset := 3303 |} ∧
  Z.of_nat (length sample_short) < 3303 + 28 + 4 ∧
  getRecordData (fs_of sample_short) (sample_reader sample_short true) 16 []
    = (true, bytes_of_string "tai" ++ [zero_byte]).
Proof. repeat split; vm_compute; reflexivity. Qed.

(** C3, amended.  A lookup miss returns [false] and leaves the buffer alone;
    so does a resolved record when the file cannot be opened.  Otherwise the
    fetch returns [true] with a buffer of [entry.size] bytes, which are the
    bytes at [entry.offset + 28] when the file holds them all. *)
Theorem getRecordData_fetch (fs : filesystem) (r : FfReader) :
  (∀ (id : Z) (data : list byte),
     fetch_spec fs r (findTocRecord r id) data (getRecordData fs r id data)) ∧
  (∀ (name data : list byte),
     fetch_spec fs r (findTocRecord_name r name) data
       (getRecordData_name fs r name data)).
Proof.
  assert (Hrec : ∀ record data,
            fetch_spec fs r (Some record) data (getRecordData_record fs r record data)).
  { intros record data. unfold fetch_spec.
    destruct (fs (ffFilePath r)) as [file|] eqn:Hfs.
    - destruct (getRecordData_record_open fs r record data file Hfs) as [H1 H2].
      split_and!; [done|done|]. by apply getRecordData_record_inside.
    - by apply getRecordData_record_closed. }
  split.
  - intros id data. unfold getRecordData.
    destruct (findTocRecord r id); [apply Hrec | done].
  - intros name data. unfold getRecordData_name.
    destruct (findTocRecord_name r name); [apply Hrec | done].
Qed.

Lemma getRecordData_fetch_witness :
  getRecordData (fs_of sample) (sample_reader sample true) 12 []
    = (true, payload_of sample sample_record_12) ∧
  getRecordData_name (fs_of sample) (sample_reader sample true)
      (bytes_of_string "B.PNG") []
    = (true, payload_of sample sample_record_12).
Proof.
  pose proof (getRecordData_fetch (fs_of sample) (sample_reader sample true)) as [Hid Hname].
  assert (Hfs : fs_of sample (ffFilePath (sample_reader sample true)) = Some sample)
    by (vm_compute; reflexivity).
  assert (Hin : payload_inside sample sample_record_12)
    by (vm_compute; repeat split; discriminate).
  split.
  - assert (E : findTocRecord (sample_reader sample true) 12 = Some sample_record_12)
      by (vm_compute; reflexivity).
    specialize (Hid 12 []). rewrite E in Hid. unfold fetch_spec in Hid.
    rewrite Hfs in Hid. destruct Hid as (_ & _ & Hid). exact (Hid Hin).
  - assert (E : findTocRecord_name (sample_reader sample true) (bytes_of_string "B.PNG")
                = Some sample_record_12)
      by (vm_compute; reflexivity).
    specialize (Hname (bytes_of_string "B.PNG") []). rewrite E in Hname.
    unfold fetch_spec in Hname.
    rewrite Hfs in Hname. destruct Hname as (_ & _ & Hname). exact (Hname Hin).
Defined.

(** C7.  When the name table maps [name] to [id], fetching by name and
    fetching by id are the same computation: with the same file and caller
    buffer they return the same result, and when the record's payload lies
    inside the file both return exactly its bytes, whatever the buffers
    held. *)
Theorem getRecordData_name_id_agree (fs : filesystem) (r : FfReader)
    (name : list byte) (id : Z) :
  strmap_find name (recordNames r) = Some id →
  (∀ data : list byte,
     getRecordData_name fs r name data = getRecordData fs r id data) ∧
  (∀ (record : TocRecord) (file data1 data2 : list byte),
     findTocRecord r id = Some record →
     fs (ffFilePath r) = Some file →
     payload_inside file record →
     getRecordData_name fs r name data1 = (true, payload_of file record) ∧
     getRecordData fs r id data2 = (true, payload_of file record)).
Proof.
  intros Hname.
  assert (Hfind : findTocRecord_name r name = findTocRecord r id).
  { unfold findTocRecord_name. by rewrite Hname. }
  split.
  - intros data. unfold getRecordData_name, getRecordData. by rewrite Hfind.
  - intros record file data1 data2 Hrec Hfs Hin.
    unfold getRecordData_name, getRecordData. rewrite Hfind, Hrec.
    split; by apply getRecordData_record_inside.
Qed.

Lemma getRecordData_name_id_agree_witness :
  (∀ data : list byte,
     getRecordData_name (fs_of sample) (sample_reader sample true)
       (bytes_of_string "B.PNG") data
     = getRecordData (fs_of sample) (sample_reader sample true) 12 data) ∧
  getRecordData_name (fs_of sample) (sample_reader sample true)
      (bytes_of_string "B.PNG") (bytes_of_string "old")
    = (true, payload_of sample sample_record_12) ∧
  getRecordData (fs_of sample) (sample_reader sample true) 12 []
    = (true, payload_of sample sample_record_12).
Proof.
  pose proof (getRecordData_name_id_agree (fs_of sample) (sample_reader sample true)
                (bytes_of_string "B.PNG") 12 ltac:(vm_compute; reflexivity)) as [H1 H2].
  split; [exact H1|].
  apply (H2 sample_record_12 sample (bytes_of_string "old") []).
  - vm_compute. reflexivity.
  - vm_compute. reflexivity.
  - vm_compute. repeat split; discriminate.
Defined.

(** * Further properties *)

Lemma bind_Throw {A B} (m : outcome A) (f : A → outcome B) (e : error) :
  m ≫= f = Throw e → m = Throw e ∨ ∃ a, m = Ok a ∧ f a = Throw e.
Proof.
  destruct m; simpl; intros H; try discriminate; eauto.
  injection H as ->. by left.
Qed.

Lemma field32_prefix (raw : list byte) (n o : nat) :
  (o + 4 ≤ n)%nat →
  field32 (take n raw) o =
    if (o + 4 <=? length raw)%nat then Some (le32 (take 4 (drop o raw))) else None.
Proof.
  intros Ho. destruct (Nat.leb_spec (o + 4) (length raw)) as [Hin|Hout].
  - destruct (Nat.le_gt_cases n (length raw)).
    + by apply field32_take.
    + rewrite take_ge by lia. unfold field32.
      destruct (Nat.leb_spec (o + 4) (length raw)); [done|lia].
  - unfold field32. rewrite length_take.
    destruct (Nat.leb_spec (o + 4) (n `min` length raw)); [lia|done].
Qed.

(** [checkFileHeader] on a freshly opened file, by cases on the bytes. *)
Lemma checkFileHeader_cases (file : list byte) :
  checkFileHeader file stream_open =
    if (length file <? 4)%nat then Undefined
    else if negb (header_signature file =? mqdbFileSignature) then Throw NotMqdbFile
    else if (length file <? 12)%nat then Undefined
    else if negb (header_version file =? mqdbFileVersion) then Throw WrongVersion
    else Ok {| gpos := Z.of_nat (24 `min` length file);
               failbit := (length file <? 24)%nat |}.
Proof.
  unfold checkFileHeader, stream_read. cbn [failbit stream_open gpos].
  change (Z.to_nat 0) with O. rewrite drop_0. unfold sizeof_MqdbHeader.
  rewrite !field32_prefix by lia. rewrite drop_0. fold (header_signature file).
  fold (header_version file). rewrite length_take.
  destruct (Nat.ltb_spec (length file) 4) as [H4|H4];
    destruct (Nat.leb_spec (0 + 4) (length file)) as [H4'|H4']; try lia; [done|].
  cbn [defined mbind outcome_mbind outcome_bind].
  destruct (negb (header_signature file =? mqdbFileSignature)); [done|].
  destruct (Nat.ltb_spec (length file) 12) as [H12|H12];
    destruct (Nat.leb_spec (8 + 4) (length file)) as [H12'|H12']; try lia; [done|].
  cbn [defined mbind outcome_mbind outcome_bind].
  destruct (negb (header_version file =? mqdbFileVersion)); [done|].
  f_equal. f_equal.
  destruct (Nat.ltb_spec (24 `min` length file) 24), (Nat.ltb_spec (length file) 24);
    first [done | lia].
Qed.

(** X1.  [checkFileHeader] on a freshly opened file.  A signature field (4
    bytes) that is present and differs from 'MQDB' gives the not-an-MQDB-file
    error, whether or not the rest of the header is there.  When the file has
    the signature and the version field (12 bytes), the not-an-MQDB-file
    error is thrown exactly when the signature differs from 'MQDB', the
    wrong-version error exactly when the signature matches and the version
    differs from 9, and the check returns exactly when both match; the
    reserved fields are never looked at, and the stream is left after the
    header bytes that were read. *)
Theorem checkFileHeader_outcomes (file : list byte) :
  ((4 ≤ length file)%nat → header_signature file ≠ mqdbFileSignature →
   checkFileHeader file stream_open = Throw NotMqdbFile) ∧
  ((12 ≤ length file)%nat →
   (checkFileHeader file stream_open = Throw NotMqdbFile ↔
      header_signature file ≠ mqdbFileSignature) ∧
   (checkFileHeader file stream_open = Throw WrongVersion ↔
      header_signature file = mqdbFileSignature ∧
      header_version file ≠ mqdbFileVersion) ∧
   (∀ s : ifstream,
      checkFileHeader file stream_open = Ok s ↔
      header_signature file = mqdbFileSignature ∧
      header_version file = mqdbFileVersion ∧
      s = {| gpos := Z.of_nat (24 `min` length file);
             failbit := (length file <? 24)%nat |})).
Proof.
  rewrite checkFileHeader_cases. split.
  - intros H4 Hs.
    destruct (Nat.ltb_spec (length file) 4); [lia|].
    by destruct (Z.eqb_spec (header_signature file) mqdbFileSignature).
  - intros H12.
    destruct (Nat.ltb_spec (length file) 4); [lia|].
    destruct (Nat.ltb_spec (length file) 12); [lia|].
    destruct (Z.eqb_spec (header_signature file) mqdbFileSignature) as [Hs|Hs]; simpl.
    2: { split_and!; [| |intros s]; split; try done.
         - intros [? _]. done.
         - intros (? & _). done. }
    destruct (Z.eqb_spec (header_version file) mqdbFileVersion) as [Hv|Hv]; simpl.
    + split_and!; [| |intros s]; split; try done.
      * intros [_ ?]. done.
      * intros Heq. injection Heq as <-. done.
      * intros (_ & _ & ->). done.
    + split_and!; [| |intros s]; split; try done.
      intros (_ & ? & _). done.
Qed.

(** Membership in, inclusion between, and absence from explicit error lists. *)
Ltac among := simpl; repeat constructor.
Ltac included :=
  let x := fresh "x" in
  let Hx := fresh "Hx" in
  intros x Hx;
  repeat (apply elem_of_cons in Hx as [->|Hx]; [repeat constructor|]);
  by apply elem_of_nil in Hx.
Ltac not_among H :=
  repeat (apply elem_of_cons in H as [H|H]; [discriminate H|]);
  by apply elem_of_nil in H.

Lemma throws_only_bind {A B} (es : list error) (m : outcome A) (f : A → outcome B) :
  throws_only es m → (∀ a, m = Ok a → throws_only es (f a)) →
  throws_only es (m ≫= f).
Proof. destruct m; simpl; auto. Qed.

Lemma throws_only_defined {A} (es : list error) (o : option A) :
  throws_only es (defined o).
Proof. by destruct o. Qed.

Lemma quiet_throws_only {A} (es : list error) (o : outcome A) :
  quiet o → throws_only es o.
Proof. by destruct o. Qed.

Lemma throws_only_mono {A} (es es' : list error) (o : outcome A) :
  es ⊆ es' → throws_only es o → throws_only es' o.
Proof. intros Hsub. destruct o; simpl; auto. Qed.

Lemma checkFileHeader_throws (file : list byte) (s : ifstream) :
  throws_only [NotMqdbFile; WrongVersion] (checkFileHeader file s).
Proof.
  unfold checkFileHeader. destruct (stream_read _ _ _) as [header s1].
  apply throws_only_bind; [apply throws_only_defined | intros sig _].
  destruct (negb _); [among|].
  apply throws_only_bind; [apply throws_only_defined | intros ver _].
  destruct (negb _); [among | done].
Qed.

Lemma readTableOfContents_loop_throws (file : list byte) (n : nat) :
  ∀ (toc : gmap Z TocRecord) (s : ifstream),
  throws_only [NonUniqueIds] (readTableOfContents_loop file n toc s).
Proof.
  induction n as [|n IH]; intros toc s; simpl; [done|].
  destruct (stream_read _ _ _) as [raw s1].
  apply throws_only_bind; [apply throws_only_defined | intros id _].
  destruct (toc !! id); [among|].
  apply throws_only_bind; [apply throws_only_defined | intros record _]. apply IH.
Qed.

Lemma readTableOfContents_throws (file : list byte) (r : FfReader) (s : ifstream) :
  throws_only [NonUniqueIds] (readTableOfContents file r s).
Proof.
  unfold readTableOfContents.
  destruct (readUint32_file file s) as [tocOffset s1].
  destruct (readUint32_file file _) as [entriesTotal s3].
  apply throws_only_bind; [apply readTableOfContents_loop_throws | by intros [? ?] _].
Qed.

Lemma readNameList_loop_throws (file : list byte) (r : FfReader) (n : nat) :
  ∀ (names : strmap Z) (s : ifstream),
  throws_only [WrongMqrcSignature] (readNameList_loop file r n names s).
Proof.
  induction n as [|n IH]; intros names s; simpl; [done|].
  destruct (stream_read file 256 s) as [name s1].
  destruct (readUint32_file file s1) as [id s2].
  destruct (findTocRecord r id) as [tocRecord|]; [|apply IH].
  destruct (stream_read file sizeof_MqrcHeader _) as [recordHeader s4].
  apply throws_only_bind; [apply throws_only_defined | intros sig _].
  destruct (negb _); [among|].
  apply throws_only_bind; [apply throws_only_defined | intros used _].
  destruct (used =? 0); [apply IH|].
  apply throws_only_bind; [apply throws_only_defined | intros nameString _].
  destruct (strmap_find nameString names); apply IH.
Qed.

Lemma readNameList_throws (file : list byte) (r : FfReader) (s : ifstream) :
  throws_only [NoNamesList; WrongMqrcSignature] (readNameList file r s).
Proof.
  unfold readNameList. destruct (findTocRecord r NameList); [|among].
  destruct (readUint32_file file _) as [namesTotal s2].
  apply throws_only_bind; [|by intros [? ?] _].
  eapply throws_only_mono; [|apply readNameList_loop_throws]. included.
Qed.

Lemma readIndex_entry_quiet (contents : list byte) (off : Z) :
  quiet (readIndex_entry contents off).
Proof.
  unfold readIndex_entry.
  apply quiet_bind; [apply readUint32_quiet | intros [? ?] _].
  apply quiet_bind; [apply cstring_at_quiet | intros ? _].
  repeat (apply quiet_bind; [apply readUint32_quiet | intros [? ?] _]). done.
Qed.

Lemma readIndex_loop_quiet (contents : list byte) (n : nat) :
  ∀ (off : Z) (r : FfReader), quiet (readIndex_loop contents n off r).
Proof.
  induction n as [|n IH]; intros off r; simpl; [done|].
  apply quiet_bind; [apply readIndex_entry_quiet | intros [[[[? ?] ?] ?] ?] _]. apply IH.
Qed.

Lemma readIndex_quiet (file : list byte) (r : FfReader) (s : ifstream) :
  quiet (readIndex file r s).
Proof.
  unfold readIndex. destruct (findTocRecord_name r indexOptRecordName); [|done].
  destruct (read_vector _ _ _) as [contents s2].
  apply quiet_bind; [apply readUint32_quiet | intros [? ?] _].
  apply quiet_bind; [apply readIndex_loop_quiet | by intros ? _].
Qed.

Lemma readImages_quiet (file : list byte) (r : FfReader) (s : ifstream) :
  quiet (readImages file r s).
Proof.
  pose proof (readImages_fuel file r s) as Hf.
  destruct (readImages file r s) as [a|e| |] eqn:H; try done.
  by apply readImages_no_throw in H.
Qed.

(** The constructor past the opening of the file. *)
Lemma ctor_stage_errors (fs : filesystem) (path : string) (b : bool) (file : list byte) :
  fs path = Some file →
  FfReader_ctor fs path b =
    (s ← checkFileHeader file stream_open;
     '(r, s) ← readTableOfContents file (FfReader_init path) s;
     '(r, s) ← readNameList file r s;
     '(r, s) ← readIndex file r s;
     if b then '(r, s) ← readImages file r s; Ok r else Ok r).
Proof. intros H. unfold FfReader_ctor. by rewrite H. Qed.

Lemma ctor_tail_throws (file : list byte) (path : string) (b : bool) (s : ifstream) :
  throws_only [NonUniqueIds; NoNamesList; WrongMqrcSignature]
    ('(r, s) ← readTableOfContents file (FfReader_init path) s;
     '(r, s) ← readNameList file r s;
     '(r, s) ← readIndex file r s;
     if b then '(r, s) ← readImages file r s; Ok r else Ok r).
Proof.
  apply throws_only_bind.
  { eapply throws_only_mono; [|apply readTableOfContents_throws]. included. }
  intros [r1 s1] _. apply throws_only_bind.
  { eapply throws_only_mono; [|apply readNameList_throws]. included. }
  intros [r2 s2] _. apply throws_only_bind.
  { apply quiet_throws_only, readIndex_quiet. }
  intros [r3 s3] _. destruct b; [|done].
  apply throws_only_bind; [apply quiet_throws_only, readImages_quiet | by intros [? ?] _].
Qed.

(** X2.  The constructor throws "Could not open MQDB file" exactly when the
    file cannot be opened.  For a file that opens, a signature field that is
    present and differs from 'MQDB' gives the not-an-MQDB-file error; when the
    file has the signature and the version field (12 bytes), the constructor
    throws the not-an-MQDB-file error exactly when the signature differs from
    'MQDB' and the wrong-version error exactly when the signature matches and
    the version differs from 9: the later stages raise neither.  The loops of
    the constructor never exhaust their bound. *)
Theorem ctor_open_and_header_errors (fs : filesystem) (path : string) (b : bool) :
  (FfReader_ctor fs path b = Throw CouldNotOpen ↔ fs path = None) ∧
  (∀ file : list byte,
     fs path = Some file →
     ((4 ≤ length file)%nat → header_signature file ≠ mqdbFileSignature →
      FfReader_ctor fs path b = Throw NotMqdbFile) ∧
     ((12 ≤ length file)%nat →
      (FfReader_ctor fs path b = Throw NotMqdbFile ↔
         header_signature file ≠ mqdbFileSignature) ∧
      (FfReader_ctor fs path b = Throw WrongVersion ↔
         header_signature file = mqdbFileSignature ∧
         header_version file ≠ mqdbFileVersion))) ∧
  FfReader_ctor fs path b ≠ OutOfFuel.
Proof.
  destruct (fs path) as [file|] eqn:Hfs.
  2: { unfold FfReader_ctor. rewrite Hfs. split_and!; done. }
  rewrite (ctor_stage_errors fs path b file Hfs).
  pose proof (ctor_tail_throws file path b) as Htail.
  rewrite checkFileHeader_cases.
  destruct (Nat.ltb_spec (length file) 4) as [H4|H4]; simpl.
  { split_and!; try done. intros f Hf. injection Hf as <-. split; intros; lia. }
  destruct (Z.eqb_spec (header_signature file) mqdbFileSignature) as [Hs|Hs]; simpl.
  2: { split_and!; try done. intros f Hf. injection Hf as <-.
       split; [done|]. intros _. split; split; try done. by intros [? _]. }
  destruct (Nat.ltb_spec (length file) 12) as [H12|H12]; simpl.
  { split_and!; try done. intros f Hf. injection Hf as <-. split; [done|]. lia. }
  destruct (Z.eqb_spec (header_version file) mqdbFileVersion) as [Hv|Hv]; simpl.
  2: { split_and!; try done. intros f Hf. injection Hf as <-.
       split; [done|]. intros _. split; split; done. }
  specialize (Htail {| gpos := Z.of_nat (24 `min` length file);
                       failbit := (length file <? 24)%nat |}).
  destruct (_ ≫= _) as [r|e| |] eqn:Hres; simpl in Htail; try done.
  - split_and!; try done. intros f Hf. injection Hf as <-.
    split; [done|]. intros _. split; split; try done. by intros [_ ?].
  - split_and!; try done.
    + split; [|done]. intros Heq. injection Heq as ->. not_among Htail.
    + intros f Hf. injection Hf as <-. split; [done|]. intros _. split; split; try done.
      * intros Heq. injection Heq as ->. not_among Htail.
      * intros Heq. injection Heq as ->. not_among Htail.
      * by intros [_ ?].
  - split_and!; try done. intros f Hf. injection Hf as <-.
    split; [done|]. intros _. split; split; try done. by intros [_ ?].
Qed.

Lemma ctor_init_fields (fs : filesystem) (path : string) (b : bool) (r : FfReader) :
  FfReader_ctor fs path b = Ok r →
  ffFilePath r = path ∧ indexData r = empty_IndexData ∧
  (b = false → packedImages r = ∅).
Proof.
  intros H. apply FfReader_ctor_Ok in H
    as (file & _ & s1 & r1 & s2 & r2 & s3 & r3 & s4 & _ & H2 & H3 & H4 & H5).
  apply readTableOfContents_fields in H2. apply readNameList_fields in H3.
  apply readIndex_id in H4. subst r3.
  assert (Hr2 : ffFilePath r2 = path ∧ indexData r2 = empty_IndexData ∧
                packedImages r2 = ∅).
  { rewrite H3, H2. done. }
  destruct Hr2 as (Hp & Hi & Hk). destruct b.
  - destruct H5 as [s5 H5]. apply readImages_fields in H5. rewrite H5. done.
  - by subst r.
Qed.

(** X9.  The [readImageData] argument only adds the packed images: a reader
    built with it equals, up to [packedImages], the reader built without it;
    a reader built without it has no packed images; and both settings throw
    the same errors. *)
Theorem ctor_flag_only_adds_images (fs : filesystem) (path : string) :
  (∀ r : FfReader,
     FfReader_ctor fs path true = Ok r →
     FfReader_ctor fs path false = Ok (set_packedImages ∅ r)) ∧
  (∀ r : FfReader,
     FfReader_ctor fs path false = Ok r →
     packedImages r = ∅ ∧
     (FfReader_ctor fs path true = Undefined ∨
      ∃ packed, FfReader_ctor fs path true = Ok (set_packedImages packed r))) ∧
  (∀ e : error,
     FfReader_ctor fs path true = Throw e ↔ FfReader_ctor fs path false = Throw e).
Proof.
  split_and!.
  - intros r H. apply FfReader_ctor_Ok in H
      as (file & Hfs & s1 & r1 & s2 & r2 & s3 & r3 & s4 & H1 & H2 & H3 & H4 & s5 & H5).
    apply FfReader_ctor_Ok. exists file. split; [done|].
    exists s1, r1, s2, r2, s3, r3, s4. split_and!; try done.
    apply readImages_fields in H5. rewrite H5.
    apply readTableOfContents_fields in H2. apply readNameList_fields in H3.
    apply readIndex_id in H4. subst r3. rewrite H3, H2. done.
  - intros r H. destruct (ctor_init_fields _ _ _ _ H) as (_ & _ & Hk).
    split; [by apply Hk|].
    apply FfReader_ctor_Ok in H
      as (file & Hfs & s1 & r1 & s2 & r2 & s3 & r3 & s4 & H1 & H2 & H3 & H4 & ->).
    rewrite (ctor_stage_errors fs path true file Hfs), H1. simpl.
    rewrite H2. simpl. rewrite H3. simpl. rewrite H4. simpl.
    pose proof (readImages_quiet file r3 s4) as Hq.
    destruct (readImages file r3 s4) as [[r4 s5]| | |] eqn:H5; try done.
    + right. exists (packedImages r4). simpl.
      apply readImages_fields in H5. by rewrite H5 at 1.
    + by left.
  - intros e. destruct (fs path) as [file|] eqn:Hfs.
    2: { unfold FfReader_ctor. by rewrite Hfs. }
    rewrite !(ctor_stage_errors fs path _ file Hfs).
    destruct (checkFileHeader file stream_open) as [s1| | |]; simpl; try done.
    destruct (readTableOfContents _ _ _) as [[r1 s2]| | |]; simpl; try done.
    destruct (readNameList _ _ _) as [[r2 s3]| | |]; simpl; try done.
    destruct (readIndex _ _ _) as [[r3 s4]| | |]; simpl; try done.
    pose proof (readImages_quiet file r3 s4) as Hq.
    destruct (readImages file r3 s4) as [[r4 s5]| | |]; simpl; try done.
Qed.

Lemma ctor_flag_only_adds_images_witness :
  FfReader_ctor (fs_of sample) sample_path false
    = Ok (set_packedImages ∅ (sample_reader sample true)) ∧
  packedImages (sample_reader sample_cut false) = ∅ ∧
  (FfReader_ctor (fs_of sample_cut) sample_path true = Undefined ∨
   ∃ packed, FfReader_ctor (fs_of sample_cut) sample_path true
             = Ok (set_packedImages packed (sample_reader sample_cut false))).
Proof.
  assert (H1 : FfReader_ctor (fs_of sample) sample_path true
               = Ok (sample_reader sample true)) by (vm_compute; reflexivity).
  assert (H2 : FfReader_ctor (fs_of sample_cut) sample_path false
               = Ok (sample_reader sample_cut false)) by (vm_compute; reflexivity).
  exact (conj
    (proj1 (ctor_flag_only_adds_images (fs_of sample) sample_path) _ H1)
    (proj1 (proj2 (ctor_flag_only_adds_images (fs_of sample_cut) sample_path)) _ H2)).
Defined.

Lemma le32_bound (bs : list byte) : le32 bs < 256 ^ Z.of_nat (length bs).
Proof.
  induction bs as [|b bs IH].
  - simpl. lia.
  - cbn [le32 length]. rewrite Nat2Z.inj_succ, Z.pow_succ_r by lia.
    pose proof (byte_val_range b). lia.
Qed.

Lemma le32_uint32 (l : list byte) : 0 ≤ le32 (take 4 l) < 2 ^ 32.
Proof.
  split; [apply le32_nonneg|].
  pose proof (le32_bound (take 4 l)) as H.
  assert (256 ^ Z.of_nat (length (take 4 l)) ≤ 256 ^ 4).
  { apply Z.pow_le_mono_r; [lia|]. rewrite length_take. lia. }
  change (2 ^ 32) with (256 ^ 4). lia.
Qed.

Lemma field32_uint32 (raw : list byte) (o : nat) (v : Z) :
  field32 raw o = Some v → uint32 v.
Proof.
  unfold field32. destruct (_ <=? _)%nat; [|discriminate].
  intros H. injection H as <-. apply le32_uint32.
Qed.

Lemma TocRecord_of_bytes_uint32 (raw : list byte) (e : TocRecord) :
  TocRecord_of_bytes raw = Some e →
  uint32 (recordId e) ∧ uint32 (size e) ∧ uint32 (sizeAllocated e) ∧ uint32 (offset e).
Proof.
  unfold TocRecord_of_bytes. intros H.
  destruct (field32 raw 0) as [i|] eqn:H0; [|discriminate]. simpl in H.
  destruct (field32 raw 4) as [sz|] eqn:H4; [|discriminate]. simpl in H.
  destruct (field32 raw 8) as [sa|] eqn:H8; [|discriminate]. simpl in H.
  destruct (field32 raw 12) as [o|] eqn:H12; [|discriminate]. simpl in H.
  injection H as <-. simpl.
  split_and!; eapply field32_uint32; eassumption.
Qed.

Lemma stream_read_gpos (file : list byte) (n : nat) (s : ifstream) :
  0 ≤ gpos s → 0 ≤ gpos (snd (stream_read file n s)).
Proof. unfold stream_read. destruct (failbit s); simpl; lia. Qed.

Lemma seekg_gpos (p : Z) (s : ifstream) : 0 ≤ gpos s → 0 ≤ gpos (seekg p s).
Proof.
  unfold seekg. destruct (failbit s); [done|].
  destruct (Z.ltb_spec p 0); simpl; lia.
Qed.

Lemma readUint32_file_gpos (file : list byte) (s : ifstream) :
  0 ≤ gpos s → 0 ≤ gpos (snd (readUint32_file file s)).
Proof.
  intros H. unfold readUint32_file.
  pose proof (stream_read_gpos file 4 s H).
  by destruct (stream_read file 4 s).
Qed.

Lemma readTableOfContents_own_id (file : list byte) (r r' : FfReader) (s s' : ifstream) :
  0 ≤ gpos s → tableOfContents r = ∅ →
  readTableOfContents file r s = Ok (r', s') →
  ∀ (id : Z) (e : TocRecord),
    tableOfContents r' !! id = Some e →
    recordId e = id ∧
    uint32 (recordId e) ∧ uint32 (size e) ∧ uint32 (sizeAllocated e) ∧ uint32 (offset e).
Proof.
  intros Hp Hempty H id e Hlook. unfold readTableOfContents in H.
  pose proof (readUint32_file_gpos file s Hp) as Hp1.
  destruct (readUint32_file file s) as [tocOffset s1]. simpl in Hp1.
  pose proof (readUint32_file_gpos file _ (seekg_gpos tocOffset s1 Hp1)) as Hp3.
  destruct (readUint32_file file _) as [entriesTotal s3]. simpl in Hp3.
  apply bind_Ok in H as ([toc s4] & Hloop & H). injection H as <- <-.
  simpl in Hlook.
  apply toc_loop_ok in Hloop as (es & Hes & Hent & _ & _ & Hchar & _); [|done].
  apply Hchar in Hlook as [Hlook|[Hin Hid]].
  { by rewrite Hempty, lookup_empty in Hlook. }
  split; [done|].
  apply list_elem_of_lookup in Hin as [i Hi].
  apply lookup_lt_Some in Hi as Hlt. rewrite Hes in Hlt.
  rewrite <- (Hent i Hlt) in Hi. unfold entry_at in Hi.
  by apply TocRecord_of_bytes_uint32 in Hi.
Qed.

(** X8.  In a constructed reader [findTocRecord] returns, for an id, a
    record that carries this id, and all four fields of the record are
    32-bit values. *)
Theorem ctor_toc_entries_own_id (fs : filesystem) (path : string) (b : bool)
    (r : FfReader) :
  FfReader_ctor fs path b = Ok r →
  ∀ (id : Z) (e : TocRecord),
    findTocRecord r id = Some e →
    recordId e = id ∧
    uint32 (recordId e) ∧ uint32 (size e) ∧ uint32 (sizeAllocated e) ∧ uint32 (offset e).
Proof.
  intros H id e Hlook. apply FfReader_ctor_Ok in H
    as (file & _ & s1 & r1 & s2 & r2 & s3 & r3 & s4 & H1 & H2 & H3 & H4 & H5).
  assert (Hs1 : 0 ≤ gpos s1).
  { rewrite checkFileHeader_cases in H1.
    destruct (_ <? 4)%nat; [discriminate|]. destruct (negb _); [discriminate|].
    destruct (_ <? 12)%nat; [discriminate|]. destruct (negb _); [discriminate|].
    injection H1 as <-. simpl. lia. }
  apply (readTableOfContents_own_id file (FfReader_init path) r1 s1 s2 Hs1 eq_refl H2).
  apply readNameList_fields in H3. apply readIndex_id in H4. subst r3.
  unfold findTocRecord in Hlook.
  assert (tableOfContents r = tableOfContents r1) as <-; [|done].
  destruct b.
  - destruct H5 as [s5 H5]. apply readImages_fields in H5. rewrite H5, H3. done.
  - subst r. by rewrite H3.
Qed.

Lemma ctor_toc_entries_own_id_witness :
  recordId sample_record_12 = 12 ∧
  uint32 (recordId sample_record_12) ∧ uint32 (size sample_record_12) ∧
  uint32 (sizeAllocated sample_record_12) ∧ uint32 (offset sample_record_12).
Proof.
  assert (H1 : FfReader_ctor (fs_of sample) sample_path true
               = Ok (sample_reader sample true)) by (vm_compute; reflexivity).
  assert (H2 : findTocRecord (sample_reader sample true) 12 = Some sample_record_12)
    by (vm_compute; reflexivity).
  exact (ctor_toc_entries_own_id (fs_of sample) sample_path true
           (sample_reader sample true) H1 12 sample_record_12 H2).
Defined.

Lemma is_zero_false (b : byte) : is_zero b = false → b ≠ zero_byte.
Proof.
  unfold is_zero. intros H ->. by vm_compute in H.
Qed.

Lemma cstring_Some_nonzero (l str : list byte) :
  cstring l = Some str → Forall (λ b, b ≠ zero_byte) str.
Proof.
  revert str. induction l as [|b l IH]; intros str; simpl; [discriminate|].
  destruct (is_zero b) eqn:Hb.
  - intros H. injection H as <-. constructor.
  - destruct (cstring l) as [str'|]; [|discriminate]. simpl.
    intros H. injection H as <-. constructor; [by apply is_zero_false | by apply IH].
Qed.

Lemma cstring_None_nonzero (l : list byte) :
  cstring l = None → Forall (λ b, b ≠ zero_byte) l.
Proof.
  induction l as [|b l IH]; simpl; [constructor|].
  destruct (is_zero b) eqn:Hb; [discriminate|].
  destruct (cstring l); [discriminate|]. intros _.
  constructor; [by apply is_zero_false | by apply IH].
Qed.

Lemma name_string_stored (raw str : list byte) :
  name_string raw = Some str → stored_name str.
Proof.
  unfold name_string, stored_name.
  destruct (cstring (take 255 raw)) as [s|] eqn:Hc.
  - intros H. injection H as <-. split; [|by eapply cstring_Some_nonzero].
    apply cstring_length in Hc. rewrite length_take in Hc. lia.
  - destruct (255 <=? length raw)%nat; [|discriminate].
    intros H. injection H as <-. split; [rewrite length_take; lia|].
    by apply cstring_None_nonzero.
Qed.

Lemma strmap_find_insert_Some {V} (k k' : list byte) (v v' : V) (m : strmap V) :
  strmap_find k' (strmap_insert k v m) = Some v' →
  (k' = k ∧ v' = v) ∨ strmap_find k' m = Some v'.
Proof.
  destruct (decide (k = k')) as [<-|Hne].
  - rewrite strmap_find_insert_eq. intros H. injection H as <-. by left.
  - rewrite strmap_find_insert_ne by done. by right.
Qed.

Lemma names_inv_insert (r : FfReader) (names : strmap Z) (name : list byte) (id : Z) :
  names_inv r names → stored_name name → is_Some (findTocRecord r id) →
  names_inv r (strmap_insert name id names).
Proof.
  intros [Hk Hr] Hname Hid. split.
  - apply Forall_forall. intros k Hin. apply keys_insert in Hin as [->|Hin]; [done|].
    rewrite Forall_forall in Hk. by apply Hk.
  - intros k i Hfind. apply strmap_find_insert_Some in Hfind as [[-> ->]|Hfind]; eauto.
Qed.

Lemma name_loop_inv (file : list byte) (r : FfReader) (n : nat) :
  ∀ (names names' : strmap Z) (s s' : ifstream),
  readNameList_loop file r n names s = Ok (names', s') →
  names_inv r names → names_inv r names'.
Proof.
  induction n as [|n IH]; intros names names' s s' H Hinv; simpl in H.
  - by injection H as <- <-.
  - destruct (stream_read file 256 s) as [name s1].
    destruct (readUint32_file file s1) as [id s2].
    destruct (findTocRecord r id) as [tocRecord|] eqn:Htoc; [|by eapply IH].
    destruct (stream_read file sizeof_MqrcHeader _) as [recordHeader s4].
    apply bind_Ok in H as (signature & _ & H).
    destruct (negb _); [discriminate|].
    apply bind_Ok in H as (used & _ & H).
    destruct (used =? 0); [by eapply IH|].
    apply bind_Ok in H as (nameString & Hname & H).
    destruct (name_string name) as [str|] eqn:Hstr; [|discriminate].
    injection Hname as <-.
    destruct (strmap_find str names); [by eapply IH|].
    eapply IH; [done|]. apply names_inv_insert; [done| |by rewrite Htoc].
    by eapply name_string_stored.
Qed.

Lemma ctor_names_inv (fs : filesystem) (path : string) (b : bool) (r : FfReader) :
  FfReader_ctor fs path b = Ok r → names_inv r (recordNames r).
Proof.
  intros H. apply FfReader_ctor_Ok in H
    as (file & _ & s1 & r1 & s2 & r2 & s3 & r3 & s4 & _ & H2 & H3 & H4 & H5).
  apply readTableOfContents_fields in H2 as Hr1.
  assert (Hinv : names_inv r2 (recordNames r2)).
  { apply readNameList_fields in H3 as Hr2.
    unfold readNameList in H3. destruct (findTocRecord r1 NameList); [|discriminate].
    destruct (readUint32_file _ _) as [namesTotal s2'].
    apply bind_Ok in H3 as ([names s3'] & Hloop & H3). injection H3 as <- <-.
    apply name_loop_inv in Hloop.
    - destruct Hloop as [Hk Hr]. split; [done|]. done.
    - rewrite Hr1. split; [constructor | done]. }
  apply readIndex_id in H4. subst r3.
  destruct b.
  - destruct H5 as [s5 H5]. apply readImages_fields in H5. rewrite H5.
    destruct Hinv as [Hk Hr]. split; done.
  - by subst r.
Qed.

(** X6.  In a constructed reader every name that [getNames] returns
    resolves through the name table to a record of the table of contents, so
    [getRecordData] by that name reports success whenever the file can still
    be opened. *)
Theorem ctor_names_resolve (fs : filesystem) (path : string) (b : bool)
    (r : FfReader) :
  FfReader_ctor fs path b = Ok r →
  ∀ name : list byte,
    name ∈ getNames r →
    is_Some (findTocRecord_name r name) ∧
    ∀ (fs' : filesystem) (data : list byte),
      is_Some (fs' path) → fst (getRecordData_name fs' r name data) = true.
Proof.
  intros H name Hin.
  pose proof (ctor_names_inv _ _ _ _ H) as [_ Hres].
  pose proof (ctor_names_sorted _ _ _ _ H) as Hs.
  destruct (ctor_init_fields _ _ _ _ H) as (Hpath & _).
  rewrite getNames_keys in Hin. apply strmap_find_is_Some in Hin as [id Hid]; [|done].
  destruct (Hres name id Hid) as [e He].
  assert (Hfind : findTocRecord_name r name = Some e).
  { unfold findTocRecord_name. by rewrite Hid. }
  split; [by rewrite Hfind|].
  intros fs' data [file Hfile]. unfold getRecordData_name. rewrite Hfind.
  rewrite <- Hpath in Hfile.
  by destruct (getRecordData_record_open fs' r e data file Hfile).
Qed.

Lemma ctor_names_resolve_witness :
  is_Some (findTocRecord_name (sample_reader sample true) (bytes_of_string "A.PNG")) ∧
  ∀ (fs' : filesystem) (data : list byte),
    is_Some (fs' sample_path) →
    fst (getRecordData_name fs' (sample_reader sample true)
           (bytes_of_string "A.PNG") data) = true.
Proof.
  assert (H1 : FfReader_ctor (fs_of sample) sample_path true
               = Ok (sample_reader sample true)) by (vm_compute; reflexivity).
  assert (H2 : bytes_of_string "A.PNG" ∈ getNames (sample_reader sample true)).
  { apply list_elem_of_lookup. exists 2%nat. vm_compute. reflexivity. }
  exact (ctor_names_resolve (fs_of sample) sample_path true
           (sample_reader sample true) H1 (bytes_of_string "A.PNG") H2).
Defined.

(** X7.  Every name of a constructed reader has at most 255 characters and
    contains no zero byte: the 256-byte slot is cut at its first terminator,
    or at byte 255. *)
Theorem ctor_names_stored (fs : filesystem) (path : string) (b : bool)
    (r : FfReader) :
  FfReader_ctor fs path b = Ok r →
  ∀ name : list byte,
    name ∈ getNames r →
    (length name ≤ 255)%nat ∧ Forall (λ c, c ≠ zero_byte) name.
Proof.
  intros H name Hin.
  pose proof (ctor_names_inv _ _ _ _ H) as [Hk _].
  rewrite getNames_keys in Hin. rewrite Forall_forall in Hk. by apply Hk.
Qed.

Lemma ctor_names_stored_witness :
  (length (bytes_of_string "A.PNG") ≤ 255)%nat ∧
  Forall (λ c, c ≠ zero_byte) (bytes_of_string "A.PNG").
Proof.
  assert (H1 : FfReader_ctor (fs_of sample) sample_path true
               = Ok (sample_reader sample true)) by (vm_compute; reflexivity).
  assert (H2 : bytes_of_string "A.PNG" ∈ getNames (sample_reader sample true)).
  { apply list_elem_of_lookup. exists 2%nat. vm_compute. reflexivity. }
  exact (ctor_names_stored (fs_of sample) sample_path true
           (sample_reader sample true) H1 (bytes_of_string "A.PNG") H2).
Defined.

Lemma entry_at_Some (file : list byte) (p : Z) :
  0 ≤ p → p + 16 ≤ Z.of_nat (length file) →
  ∃ e, entry_at file p = Some e ∧ recordId e = id_at file p.
Proof.
  intros Hp Hin. unfold entry_at, TocRecord_of_bytes, sizeof_TocRecord.
  rewrite !field32_take by (rewrite ?length_drop; lia).
  simpl. eexists. split; [done|]. simpl. by rewrite drop_0.
Qed.

Lemma toc_loop_total (file : list byte) (n : nat) :
  ∀ (p : Z) (toc : gmap Z TocRecord),
  0 ≤ p → p + 16 * Z.of_nat n ≤ Z.of_nat (length file) →
  NoDup ((λ i, id_at file (p + 16 * Z.of_nat i)) <$> seq 0 n) →
  (∀ i, (i < n)%nat → toc !! id_at file (p + 16 * Z.of_nat i) = None) →
  ∃ toc',
    readTableOfContents_loop file n toc {| gpos := p; failbit := false |}
    = Ok (toc', {| gpos := p + 16 * Z.of_nat n; failbit := false |}).
Proof.
  induction n as [|n IH]; intros p toc Hp Hin Hnd Hfresh.
  - simpl. exists toc. do 3 f_equal. lia.
  - destruct (entry_at_Some file p Hp ltac:(lia)) as (e & He & Hid).
    rewrite (toc_loop_step file n toc _ e) by done.
    pose proof (Hfresh O ltac:(lia)) as H0.
    rewrite Z.mul_0_r, Z.add_0_r, <- Hid in H0. rewrite H0. cbn [gpos].
    cbn [seq fmap list_fmap] in Hnd. rewrite <- fmap_S_seq, <- list_fmap_compose in Hnd.
    apply NoDup_cons in Hnd as [Hnotin Hnd].
    assert (Hshift : ∀ i : nat, p + 16 + 16 * Z.of_nat i = p + 16 * Z.of_nat (S i)) by lia.
    destruct (IH (p + 16) (<[recordId e := e]> toc)) as [toc' Hloop].
    + lia.
    + lia.
    + erewrite list_fmap_ext; [exact Hnd|]. intros _ i _. simpl. by rewrite Hshift.
    + intros i Hi. rewrite Hshift.
      destruct (decide (recordId e = id_at file (p + 16 * Z.of_nat (S i)))) as [Heq|Hne].
      * exfalso. apply Hnotin. rewrite Z.mul_0_r, Z.add_0_r, <- Hid, Heq.
        apply list_elem_of_fmap. exists i. split; [done|]. apply elem_of_seq. lia.
      * rewrite lookup_insert_ne by done. apply Hfresh. lia.
    + exists toc'. rewrite Hloop. do 3 f_equal. lia.
Qed.

Lemma readTableOfContents_total (file : list byte) (path : string) :
  toc_inside file → NoDup (toc_ids file) →
  ∃ r : FfReader,
    readTableOfContents file (FfReader_init path) {| gpos := 24; failbit := false |}
    = Ok (r, {| gpos := toc_offset file + 4 + 16 * toc_count file; failbit := false |}).
Proof.
  intros [Hlen Hin] Hnd. unfold readTableOfContents.
  pose proof (le32_nonneg (take 4 (drop 24 file))) as Hoff. fold (toc_offset file) in Hoff.
  pose proof (le32_nonneg (take 4 (drop (Z.to_nat (toc_offset file)) file))) as Hcnt.
  fold (toc_count file) in Hcnt.
  rewrite readUint32_file_inside by (simpl; first [done | lia]).
  cbn [gpos]. change (Z.to_nat 24) with 24%nat. fold (toc_offset file).
  rewrite seekg_ok by (simpl; first [done | lia]).
  rewrite readUint32_file_inside by (simpl; first [done | lia]).
  cbn [gpos]. fold (toc_count file).
  destruct (toc_loop_total file (Z.to_nat (toc_count file)) (toc_offset file + 4) ∅)
    as [toc' Hloop].
  - lia.
  - lia.
  - exact Hnd.
  - intros i _. apply lookup_empty.
  - cbn [tableOfContents FfReader_init]. rewrite Hloop. simpl.
    eexists. do 3 f_equal. lia.
Qed.

(** X3.  A table of contents that lies inside the file and lists pairwise
    different record ids is read completely: [readTableOfContents] returns,
    the stream stands right after the last record, and [findTocRecord] finds
    exactly the listed ids. *)
Theorem readTableOfContents_reads_wellformed (file : list byte) (path : string) :
  toc_inside file → NoDup (toc_ids file) →
  ∃ r : FfReader,
    readTableOfContents file (FfReader_init path) {| gpos := 24; failbit := false |}
    = Ok (r, {| gpos := toc_offset file + 4 + 16 * toc_count file; failbit := false |})
    ∧ toc_holds file (tableOfContents r)
    ∧ ∀ id : Z, is_Some (findTocRecord r id) ↔ id ∈ toc_ids file.
Proof.
  intros Hin Hnd.
  destruct (readTableOfContents_total file path Hin Hnd) as [r Hr].
  exists r. split; [done|].
  destruct (readTableOfContents_ok file path r _ (proj1 Hin) Hr) as [Hholds _].
  split; [done|].
  destruct Hholds as (es & Hlen & Hent & _ & Hchar & _).
  destruct Hin as [Hfile Hin].
  pose proof (le32_nonneg (take 4 (drop 24 file))) as Hoff. fold (toc_offset file) in Hoff.
  assert (Hid : ∀ i e, es !! i = Some e →
            recordId e = id_at file (toc_offset file + 4 + 16 * Z.of_nat i)).
  { intros i e Hi. apply lookup_lt_Some in Hi as Hlt.
    rewrite <- (Hent i Hlt) in Hi. unfold toc_entry in Hi.
    destruct (entry_at_Some file (toc_offset file + 4 + 16 * Z.of_nat i))
      as (e' & He' & Hid'); [lia|lia|]. congruence. }
  intros id. unfold findTocRecord, toc_ids. split.
  - intros [e He]. apply Hchar in He as [Hmem <-].
    apply list_elem_of_lookup in Hmem as [i Hi].
    apply list_elem_of_fmap. exists i. split; [by apply Hid|].
    apply elem_of_seq. apply lookup_lt_Some in Hi. lia.
  - intros Hmem. apply list_elem_of_fmap in Hmem as (i & -> & Hi).
    apply elem_of_seq in Hi.
    destruct (lookup_lt_is_Some_2 es i ltac:(lia)) as [e He].
    exists e. apply Hchar. split; [by eapply list_elem_of_lookup_2|]. by apply Hid.
Qed.

Lemma readTableOfContents_reads_wellformed_witness :
  ∃ r : FfReader,
    readTableOfContents sample (FfReader_init sample_path)
      {| gpos := 24; failbit := false |}
    = Ok (r, {| gpos := toc_offset sample + 4 + 16 * toc_count sample;
                failbit := false |})
    ∧ toc_holds sample (tableOfContents r)
    ∧ ∀ id : Z, is_Some (findTocRecord r id) ↔ id ∈ toc_ids sample.
Proof.
  assert (H1 : toc_inside sample) by (vm_compute; split; [lia | discriminate]).
  assert (H2 : NoDup (toc_ids sample)).
  { apply (bool_decide_unpack _). vm_compute. exact I. }
  exact (readTableOfContents_reads_wellformed sample sample_path H1 H2).
Defined.

(** X4.  A container with a valid header and a readable table of contents
    that has no record with the name-list id 2 is rejected with the
    missing-names-list error. *)
Theorem ctor_requires_name_list (fs : filesystem) (path : string) (b : bool)
    (file : list byte) :
  fs path = Some file →
  header_signature file = mqdbFileSignature →
  header_version file = mqdbFileVersion →
  toc_inside file → NoDup (toc_ids file) →
  NameList ∉ toc_ids file →
  FfReader_ctor fs path b = Throw NoNamesList.
Proof.
  intros Hfs Hsig Hver Hin Hnd Hmiss.
  destruct (readTableOfContents_total file path Hin Hnd) as [r Hr].
  assert (Hnone : findTocRecord r NameList = None).
  { destruct (findTocRecord r NameList) as [e|] eqn:He; [|done].
    exfalso. apply Hmiss.
    destruct (readTableOfContents_ok file path r _ (proj1 Hin) Hr) as [Hholds _].
    destruct Hholds as (es & Hlen & Hent & _ & Hchar & _).
    unfold findTocRecord in He. apply (proj1 (Hchar NameList e)) in He.
    destruct He as [Hmem Hid].
    apply list_elem_of_lookup in Hmem as [i Hi].
    apply lookup_lt_Some in Hi as Hlt. rewrite <- (Hent i Hlt) in Hi.
    destruct Hin as [Hfile Hin].
    pose proof (le32_nonneg (take 4 (drop 24 file))) as Hoff.
    fold (toc_offset file) in Hoff.
    destruct (entry_at_Some file (toc_offset file + 4 + 16 * Z.of_nat i))
      as (e' & He' & Hid'); [lia|lia|].
    unfold toc_entry in Hi. rewrite He' in Hi. injection Hi as ->.
    apply list_elem_of_fmap. exists i. split; [congruence|].
    apply elem_of_seq. lia. }
  rewrite (ctor_stage_errors fs path b file Hfs), checkFileHeader_cases.
  destruct Hin as [Hfile Hin].
  destruct (Nat.ltb_spec (length file) 4); [lia|].
  apply Z.eqb_eq in Hsig, Hver. rewrite Hsig, Hver. cbn [negb].
  destruct (Nat.ltb_spec (length file) 12); [lia|].
  destruct (Nat.ltb_spec (length file) 24); [lia|].
  rewrite Nat.min_l by lia. change (Z.of_nat 24) with 24.
  cbn [mbind outcome_mbind outcome_bind]. rewrite Hr.
  cbn [mbind outcome_mbind outcome_bind]. unfold readNameList. by rewrite Hnone.
Qed.

Lemma ctor_requires_name_list_witness :
  FfReader_ctor (fs_of nameless_file) sample_path true = Throw NoNamesList.
Proof.
  assert (H1 : toc_inside nameless_file) by (vm_compute; split; [lia | discriminate]).
  assert (H2 : NoDup (toc_ids nameless_file)).
  { apply (bool_decide_unpack _). vm_compute. exact I. }
  assert (H3 : NameList ∉ toc_ids nameless_file).
  { apply (bool_decide_unpack _). vm_compute. exact I. }
  assert (H4 : header_signature nameless_file = mqdbFileSignature)
    by (vm_compute; reflexivity).
  assert (H5 : header_version nameless_file = mqdbFileVersion)
    by (vm_compute; reflexivity).
  exact (ctor_requires_name_list (fs_of nameless_file) sample_path true nameless_file
           (fs_of_path nameless_file) H4 H5 H1 H2 H3).
Defined.

Lemma name_loop_app (file : list byte) (r : FfReader) (a : nat) :
  ∀ (b : nat) (names : strmap Z) (s : ifstream),
  readNameList_loop file r (a + b) names s =
    readNameList_loop file r a names s
      ≫= (λ '(names', s'), readNameList_loop file r b names' s').
Proof.
  induction a as [|a IH]; intros b names s; [done|].
  change (S a + b)%nat with (S (a + b)). simpl.
  destruct (stream_read file 256 s) as [name s1].
  destruct (readUint32_file file s1) as [id s2].
  destruct (findTocRecord r id) as [tocRecord|]; [|apply IH].
  destruct (stream_read file sizeof_MqrcHeader _) as [recordHeader s4].
  destruct (defined (field32 recordHeader 0)) as [sig| | |]; simpl; try done.
  destruct (negb _); [done|].
  destruct (defined (field32 recordHeader 20)) as [used| | |]; simpl; try done.
  destruct (used =? 0); [apply IH|].
  destruct (defined (name_string name)) as [str| | |]; simpl; try done.
  destruct (strmap_find str names); apply IH.
Qed.

(** X5.  When the name list names a record of the table of contents whose
    sub-record header does not start with the MQRC signature, and the entries
    before it are in order, [readNameList] throws the wrong-MQRC-signature
    error. *)
Theorem readNameList_rejects_bad_record (file : list byte) (r : FfReader)
    (s : ifstream) (namesList e : TocRecord) (k : nat) :
  failbit s = false →
  findTocRecord r NameList = Some namesList →
  0 ≤ offset namesList →
  (k < Z.to_nat (names_count file (offset namesList + 28)))%nat →
  offset namesList + 28 + 4 + 260 * (Z.of_nat k + 1) ≤ Z.of_nat (length file) →
  (∀ i, (i < k)%nat →
        entry_resolvable file (tableOfContents r)
          (snd (name_entry file (offset namesList + 28) i)) = true) →
  findTocRecord r (snd (name_entry file (offset namesList + 28) k)) = Some e →
  0 ≤ offset e →
  offset e + 4 ≤ Z.of_nat (length file) →
  le32 (take 4 (header_of file e)) ≠ mqrcSignature →
  readNameList file r s = Throw WrongMqrcSignature.
Proof.
  intros Hf Hnl Hoff Hk Hin Hres He Hoe Hine Hsig.
  unfold readNameList. rewrite Hnl.
  change (Z.of_nat sizeof_MqrcHeader) with 28.
  set (base := offset namesList + 28) in *.
  rewrite seekg_ok by (first [done | lia]).
  rewrite readUint32_file_inside by (simpl; first [done | lia]).
  cbn [gpos]. fold (names_count file base).
  replace (Z.to_nat (names_count file base))
    with (k + S (Z.to_nat (names_count file base) - S k))%nat by lia.
  rewrite name_loop_app.
  pose proof (name_loop_fold file r base k O (recordNames r)) as Hloop.
  replace (base + 4 + 260 * Z.of_nat 0) with (base + 4) in Hloop by lia.
  rewrite Hloop; clear Hloop.
  2: { unfold base. lia. }
  2: { simpl. lia. }
  2: { intros i Hi. apply Hres. lia. }
  cbn [mbind outcome_mbind outcome_bind]. cbn [readNameList_loop].
  rewrite stream_read_inside by (simpl; first [done | lia]).
  rewrite readUint32_file_inside by (simpl; first [done | lia]).
  cbn [gpos]. change (Z.of_nat 256) with 256.
  unfold name_entry in He. cbn [snd] in He.
  replace (base + 4 + 260 * Z.of_nat (0 + k)) with (base + 4 + 260 * Z.of_nat k) by lia.
  rewrite He. unfold tellg. cbn [failbit gpos].
  rewrite seekg_ok by (simpl; first [done | lia]).
  unfold stream_read. cbn [failbit gpos]. fold (header_of file e).
  assert (Hlen : (4 ≤ length (header_of file e))%nat).
  { unfold header_of, sizeof_MqrcHeader. rewrite length_take, length_drop. lia. }
  assert (Hfield : field32 (header_of file e) 0
                   = Some (le32 (take 4 (header_of file e)))).
  { unfold field32. destruct (Nat.leb_spec (0 + 4) (length (header_of file e))); [|lia].
    by rewrite drop_0. }
  rewrite Hfield. cbn [defined mbind outcome_mbind outcome_bind].
  apply Z.eqb_neq in Hsig. by rewrite Hsig.
Qed.

(** X12.  On a well-formed name list [readNameList] leaves the stream right
    after the last name-list entry, in a good state: the looks at the
    sub-record headers do not disturb the position. *)
Theorem readNameList_restores_position (file : list byte) (r r' : FfReader)
    (s s' : ifstream) :
  failbit s = false → names_wellformed file r = true →
  readNameList file r s = Ok (r', s') →
  ∃ namesList : TocRecord,
    findTocRecord r NameList = Some namesList ∧
    s' = {| gpos := offset namesList + 28 + 4
                    + 260 * names_count file (offset namesList + 28);
            failbit := false |}.
Proof.
  intros Hf Hwf H. unfold names_wellformed in Hwf. unfold readNameList in H.
  destruct (findTocRecord r NameList) as [namesList|]; [|discriminate].
  exists namesList. split; [done|].
  set (base := offset namesList + 28) in *. cbv zeta in Hwf.
  apply andb_true_iff in Hwf as [Hwf Hres]. apply andb_true_iff in Hwf as [Hoff Hin].
  apply Z.leb_le in Hoff, Hin.
  assert (Hn : 0 ≤ names_count file base) by apply le32_nonneg.
  rewrite forallb_forall in Hres.
  change (Z.of_nat sizeof_MqrcHeader) with 28 in H. fold base in H.
  rewrite seekg_ok in H by (first [done | lia]).
  rewrite readUint32_file_inside in H by (simpl; first [done | lia]).
  cbn [gpos] in H. fold (names_count file base) in H.
  pose proof (name_loop_fold file r base (Z.to_nat (names_count file base)) O
                (recordNames r)) as Hloop.
  replace (base + 4 + 260 * Z.of_nat 0) with (base + 4) in Hloop by lia.
  rewrite Hloop in H; clear Hloop.
  2: { unfold base. lia. }
  2: { simpl. lia. }
  2: { intros i Hi. apply Hres. apply in_seq. lia. }
  cbn [mbind outcome_mbind outcome_bind] in H. injection H as _ <-.
  f_equal. lia.
Qed.

Lemma byte_val_of_Z (z : Z) : byte_val (byte_of_Z z) = z mod 256.
Proof.
  unfold byte_of_Z, byte_val.
  assert (Hr : 0 ≤ z mod 256 < 256) by (apply Z.mod_pos_bound; lia).
  destruct (Byte.of_N (Z.to_N (z mod 256))) as [b|] eqn:Hb; simpl.
  - apply Byte.to_of_N in Hb. rewrite Hb. lia.
  - apply Byte.of_N_None_iff in Hb. lia.
Qed.

Lemma le32_u32 (z : Z) : uint32 z → le32 (u32 z) = z.
Proof.
  intros [H0 H1]. unfold u32. cbn [le32]. rewrite !byte_val_of_Z.
  change (2 ^ 8) with 256. change (2 ^ 16) with 65536. change (2 ^ 24) with 16777216.
  change (2 ^ 32) with 4294967296 in H1.
  Z.to_euclidean_division_equations. lia.
Qed.

Lemma length_u32 (z : Z) : length (u32 z) = 4%nat.
Proof. done. Qed.

Lemma is_zero_true (b : byte) : is_zero b = true → b = zero_byte.
Proof.
  unfold is_zero. intros H. apply Z.eqb_eq in H. by apply byte_val_inj.
Qed.

Lemma cstring_encoded (name post : list byte) :
  Forall (λ c, c ≠ zero_byte) name →
  cstring (name ++ zero_byte :: post) = Some name.
Proof.
  induction 1 as [|b name Hb _ IH]; simpl; [done|].
  destruct (is_zero b) eqn:Hz; [by apply is_zero_true in Hz|].
  by rewrite IH.
Qed.

Section decode.
Variables pre post : list byte.

Lemma readUint32_encoded (z : Z) :
  uint32 z →
  readUint32 (pre ++ u32 z ++ post) (Z.of_nat (length pre))
  = Ok (z, Z.of_nat (length (pre ++ u32 z))).
Proof.
  intros Hz. unfold readUint32.
  rewrite !length_app, length_u32, Nat2Z.id.
  destruct (Z.leb_spec 0 (Z.of_nat (length pre))); [|lia].
  destruct (Z.leb_spec (Z.of_nat (length pre) + 4)
              (Z.of_nat (length pre + (4 + length post)))); [|lia].
  cbn [andb]. rewrite drop_app_length, (take_app_length' (u32 z)) by done.
  rewrite le32_u32 by done. do 2 f_equal. lia.
Qed.

Lemma cstring_at_encoded (name : list byte) :
  Forall (λ c, c ≠ zero_byte) name →
  cstring_at (pre ++ name ++ zero_byte :: post) (Z.of_nat (length pre)) = Ok name.
Proof.
  intros Hname. unfold cstring_at.
  destruct (Z.leb_spec 0 (Z.of_nat (length pre))); [|lia].
  by rewrite Nat2Z.id, drop_app_length, cstring_encoded.
Qed.

Lemma read_palette_encoded (pal : list byte) :
  length pal = 1035%nat →
  read_palette (pre ++ pal ++ post) (Z.of_nat (length pre)) = Ok pal.
Proof.
  intros Hlen. unfold read_palette, paletteSize.
  rewrite !length_app, Hlen, Nat2Z.id.
  destruct (Z.leb_spec 0 (Z.of_nat (length pre))); [|lia].
  destruct (Z.leb_spec (Z.of_nat (length pre) + (11 + 1024))
              (Z.of_nat (length pre + (1035 + length post)))); [|lia].
  cbn [andb]. change (Z.to_nat (11 + 1024)) with 1035%nat.
  rewrite drop_app_length, take_app_length' by (by rewrite Hlen). done.
Qed.

End decode.

(** Reads the next encoded value off a buffer written as [pre ++ v ++ rest]
    and makes [pre ++ v] the consumed prefix. *)
Ltac next_u32 :=
  rewrite readUint32_encoded by assumption;
  cbn [mbind outcome_mbind outcome_bind];
  rewrite (app_assoc _ (u32 _)).

Lemma readImages_part_encoded (pre post : list byte) (p : ImagePart) :
  part_ok p →
  readImages_part (pre ++ encode_part p ++ post) (Z.of_nat (length pre))
  = Ok (p, Z.of_nat (length (pre ++ encode_part p))).
Proof.
  intros (H1 & H2 & H3 & H4 & H5 & H6). unfold readImages_part, encode_part.
  rewrite <- !app_assoc.
  do 6 next_u32.
  destruct p. simpl. do 2 f_equal. by rewrite <- !app_assoc.
Qed.

Lemma readImages_parts_encoded (ps : list ImagePart) :
  ∀ (pre post : list byte) (acc : list ImagePart),
  Forall part_ok ps →
  readImages_parts (pre ++ concat (encode_part <$> ps) ++ post) (length ps)
    (Z.of_nat (length pre)) acc
  = Ok (acc ++ ps, Z.of_nat (length (pre ++ concat (encode_part <$> ps)))).
Proof.
  induction ps as [|p ps IH]; intros pre post acc Hok.
  - simpl. by rewrite !app_nil_r.
  - apply Forall_cons in Hok as [Hp Hok].
    cbn [length fmap list_fmap concat readImages_parts]. rewrite <- app_assoc.
    rewrite readImages_part_encoded by done.
    cbn [mbind outcome_mbind outcome_bind].
    rewrite (app_assoc pre), IH by done.
    by rewrite <- !app_assoc.
Qed.

Lemma readImages_frame_encoded (pre post : list byte) (f : ImageFrame) :
  frame_ok f →
  readImages_frame (pre ++ encode_frame f ++ post) (Z.of_nat (length pre))
  = Ok (f, Z.of_nat (length (pre ++ encode_frame f))).
Proof.
  intros (Hname & Hw & Hh & Hn & Hps). unfold readImages_frame, encode_frame.
  rewrite <- !app_assoc. cbn [app].
  rewrite cstring_at_encoded by done. cbn [mbind outcome_mbind outcome_bind].
  replace (Z.of_nat (length pre) + (Z.of_nat (length (frame_name f)) + 1))
    with (Z.of_nat (length (pre ++ frame_name f ++ [zero_byte])))
    by (rewrite !length_app; simpl; lia).
  change (frame_name f ++ zero_byte :: ?x) with (frame_name f ++ [zero_byte] ++ x).
  rewrite (app_assoc (frame_name f)), (app_assoc pre).
  do 3 next_u32.
  rewrite Nat2Z.id, readImages_parts_encoded by done.
  cbn [mbind outcome_mbind outcome_bind app].
  destruct f. simpl. do 2 f_equal. by rewrite <- !app_assoc.
Qed.

Lemma readImages_frames_encoded (fs : list ImageFrame) :
  ∀ (pre post : list byte) (acc : list ImageFrame),
  Forall frame_ok fs →
  readImages_frames (pre ++ concat (encode_frame <$> fs) ++ post) (length fs)
    (Z.of_nat (length pre)) acc
  = Ok (acc ++ fs, Z.of_nat (length (pre ++ concat (encode_frame <$> fs)))).
Proof.
  induction fs as [|f fs IH]; intros pre post acc Hok.
  - simpl. by rewrite !app_nil_r.
  - apply Forall_cons in Hok as [Hf Hok].
    cbn [length fmap list_fmap concat readImages_frames]. rewrite <- app_assoc.
    rewrite readImages_frame_encoded by done.
    cbn [mbind outcome_mbind outcome_bind].
    rewrite (app_assoc pre), IH by done.
    by rewrite <- !app_assoc.
Qed.

Lemma readImages_body_encoded (pre post : list byte) (img : PackedImage) :
  image_ok img →
  readImages_body (pre ++ encode_image img ++ post) (Z.of_nat (length pre))
  = Ok (Z.of_nat (length pre) mod 2 ^ 32, img,
        Z.of_nat (length (pre ++ encode_image img))).
Proof.
  intros (Hpal & Hn & Hfs). unfold readImages_body, encode_image.
  rewrite <- !app_assoc.
  rewrite read_palette_encoded by done. cbn [mbind outcome_mbind outcome_bind].
  replace (Z.of_nat (length pre) + paletteSize)
    with (Z.of_nat (length (pre ++ palette img)))
    by (rewrite length_app, Hpal; unfold paletteSize; lia).
  rewrite (app_assoc pre).
  next_u32.
  rewrite Nat2Z.id, readImages_frames_encoded by done.
  cbn [mbind outcome_mbind outcome_bind app].
  destruct img. simpl. do 2 f_equal. by rewrite <- !app_assoc.
Qed.

Lemma encode_image_length (img : PackedImage) :
  image_ok img → (1039 ≤ length (encode_image img))%nat.
Proof.
  intros (Hpal & _). unfold encode_image. rewrite !length_app, Hpal, length_u32. lia.
Qed.

Lemma encode_images_length (imgs : list PackedImage) :
  Forall image_ok imgs → (length imgs ≤ length (encode_images imgs))%nat.
Proof.
  unfold encode_images.
  induction 1 as [|img imgs Himg _ IH]; cbn [fmap list_fmap concat length]; [lia|].
  apply encode_image_length in Himg. rewrite length_app. lia.
Qed.

Lemma readImages_while_encoded (imgs : list PackedImage) :
  ∀ (fuel : nat) (pre : list byte) (packed : gmap Z PackedImage),
  (length imgs < fuel)%nat →
  Forall image_ok imgs →
  Z.of_nat (length (pre ++ encode_images imgs)) < 2 ^ 32 →
  readImages_while fuel (pre ++ encode_images imgs)
    (Z.of_nat (length (pre ++ encode_images imgs))) (Z.of_nat (length pre)) packed
  = Ok (Z.of_nat (length (pre ++ encode_images imgs)),
        store_images (Z.of_nat (length pre)) imgs packed).
Proof.
  induction imgs as [|img imgs IH]; intros fuel pre packed Hfuel Hok Hsmall.
  - unfold encode_images. simpl. rewrite app_nil_r.
    destruct fuel; simpl; by rewrite Z.ltb_irrefl.
  - apply Forall_cons in Hok as [Himg Hok].
    pose proof (encode_image_length img Himg) as Hlen.
    destruct fuel as [|fuel]; [simpl in Hfuel; lia|].
    unfold encode_images in *. cbn [fmap list_fmap concat] in *.
    fold (encode_images imgs) in *.
    cbn [readImages_while].
    destruct (Z.ltb_spec (Z.of_nat (length pre))
                (Z.of_nat (length (pre ++ encode_image img ++ encode_images imgs))))
      as [_|Hge]; [|rewrite !length_app in Hge; lia].
    rewrite readImages_body_encoded by done.
    cbn [mbind outcome_mbind outcome_bind].
    rewrite Z.mod_small by (rewrite !length_app in Hsmall; lia).
    specialize (IH fuel (pre ++ encode_image img)
                  (<[Z.of_nat (length pre) := img]> packed)).
    rewrite <- app_assoc in IH. rewrite IH; [|simpl in Hfuel; lia|done|done].
    cbn [store_images]. rewrite (length_app pre (encode_image img)), Nat2Z.inj_add.
    reflexivity.
Qed.

Lemma store_images_below (imgs : list PackedImage) :
  ∀ (off k : Z) (packed : gmap Z PackedImage),
  k < off → store_images off imgs packed !! k = packed !! k.
Proof.
  induction imgs as [|img imgs IH]; intros off k packed Hk; simpl; [done|].
  rewrite IH by lia. apply lookup_insert_ne. lia.
Qed.

Lemma image_offset_cons (img : PackedImage) (imgs : list PackedImage) (i : nat) :
  image_offset (img :: imgs) (S i)
  = Z.of_nat (length (encode_image img)) + image_offset imgs i.
Proof.
  unfold image_offset, encode_images. cbn [firstn fmap list_fmap concat].
  rewrite length_app. lia.
Qed.

Lemma store_images_hit (imgs : list PackedImage) :
  ∀ (off : Z) (packed : gmap Z PackedImage) (i : nat) (img : PackedImage),
  Forall image_ok imgs → imgs !! i = Some img →
  store_images off imgs packed !! (off + image_offset imgs i) = Some img.
Proof.
  induction imgs as [|img0 imgs IH]; intros off packed i img Hok Hi; [done|].
  apply Forall_cons in Hok as [Himg Hok].
  pose proof (encode_image_length img0 Himg) as Hlen.
  destruct i as [|i]; simpl in Hi.
  - injection Hi as ->. unfold image_offset. cbn [firstn encode_images fmap list_fmap concat length].
    rewrite Z.add_0_r.
    cbn [store_images]. rewrite store_images_below by lia. apply lookup_insert_eq.
  - rewrite image_offset_cons. cbn [store_images]. rewrite Z.add_assoc. by apply IH.
Qed.

Lemma store_images_miss (imgs : list PackedImage) :
  ∀ (off k : Z) (packed : gmap Z PackedImage),
  (∀ i, (i < length imgs)%nat → off + image_offset imgs i ≠ k) →
  store_images off imgs packed !! k = packed !! k.
Proof.
  induction imgs as [|img0 imgs IH]; intros off k packed Hk; simpl; [done|].
  rewrite IH.
  - apply lookup_insert_ne. specialize (Hk O ltac:(simpl; lia)).
    unfold image_offset in Hk. cbn [firstn encode_images fmap list_fmap concat length] in Hk. lia.
  - intros i Hi. specialize (Hk (S i) ltac:(simpl; lia)).
    rewrite image_offset_cons in Hk. lia.
Qed.

Lemma readImages_decode_encoded (imgs : list PackedImage)
    (packed : gmap Z PackedImage) :
  Forall image_ok imgs →
  Z.of_nat (length (encode_images imgs)) < 2 ^ 32 →
  readImages_decode (encode_images imgs)
    (Z.of_nat (length (encode_images imgs))) packed
  = Ok (Z.of_nat (length (encode_images imgs)), store_images 0 imgs packed).
Proof.
  intros Hok Hsmall. unfold readImages_decode.
  apply (readImages_while_encoded imgs _ [] packed); [|done|done].
  pose proof (encode_images_length imgs Hok). lia.
Qed.

(** X10.  Decoding the encoding of a list of packed images (palette of 1035
    bytes, frame count, frames with zero-terminated name, part count, width,
    height and six-field parts) consumes the whole payload and stores every
    image, unchanged, under the byte offset it starts at; no other key of the
    table is touched. *)
Theorem readImages_decodes_encoded (imgs : list PackedImage)
    (packed : gmap Z PackedImage) :
  Forall image_ok imgs →
  Z.of_nat (length (encode_images imgs)) < 2 ^ 32 →
  ∃ packed' : gmap Z PackedImage,
    readImages_decode (encode_images imgs)
      (Z.of_nat (length (encode_images imgs))) packed
    = Ok (Z.of_nat (length (encode_images imgs)), packed') ∧
    (∀ (i : nat) (img : PackedImage),
       imgs !! i = Some img → packed' !! image_offset imgs i = Some img) ∧
    (∀ k : Z,
       (∀ i, (i < length imgs)%nat → image_offset imgs i ≠ k) →
       packed' !! k = packed !! k).
Proof.
  intros Hok Hsmall. exists (store_images 0 imgs packed). split_and!.
  - by apply readImages_decode_encoded.
  - intros i img Hi. by apply (store_images_hit imgs 0 packed i img).
  - intros k Hk. apply store_images_miss. intros i Hi. rewrite Z.add_0_l. by apply Hk.
Qed.

Lemma sample_image_ok : Forall image_ok [sample_image].
Proof.
  repeat constructor; try (vm_compute; congruence); try discriminate.
Qed.

Lemma readImages_decodes_encoded_witness :
  ∃ packed' : gmap Z PackedImage,
    readImages_decode (encode_images [sample_image])
      (Z.of_nat (length (encode_images [sample_image]))) ∅
    = Ok (Z.of_nat (length (encode_images [sample_image])), packed') ∧
    (∀ (i : nat) (img : PackedImage),
       [sample_image] !! i = Some img →
       packed' !! image_offset [sample_image] i = Some img) ∧
    (∀ k : Z,
       (∀ i, (i < length [sample_image])%nat → image_offset [sample_image] i ≠ k) →
       packed' !! k = (∅ : gmap Z PackedImage) !! k).
Proof.
  assert (H : Z.of_nat (length (encode_images [sample_image])) < 2 ^ 32)
    by (vm_compute; reflexivity).
  exact (readImages_decodes_encoded [sample_image] ∅ sample_image_ok H).
Defined.

(** X13.  When the name table resolves '-IMAGES.OPT' to a record whose
    payload lies inside the file (below 4 GiB) and is the encoding of a list
    of packed images, [readImages] succeeds, changes nothing but
    [packedImages], and stores every image under its offset in the payload. *)
Theorem readImages_stores_record (file : list byte) (r : FfReader) (s : ifstream)
    (record : TocRecord) (imgs : list PackedImage) :
  findTocRecord_name r imagesOptRecordName = Some record →
  failbit s = false →
  payload_inside file record →
  offset record + 28 < 2 ^ 32 →
  size record < 2 ^ 32 →
  payload_of file record = encode_images imgs →
  Forall image_ok imgs →
  ∃ (r' : FfReader) (s' : ifstream),
    readImages file r s = Ok (r', s') ∧
    r' = set_packedImages (packedImages r') r ∧
    (∀ (i : nat) (img : PackedImage),
       imgs !! i = Some img → packedImages r' !! image_offset imgs i = Some img) ∧
    (∀ k : Z,
       (∀ i, (i < length imgs)%nat → image_offset imgs i ≠ k) →
       packedImages r' !! k = packedImages r !! k).
Proof.
  intros Hfind Hf (Hoff & Hsize & Hin) Hnarrow Hsmall Hpayload Hok.
  unfold readImages. rewrite Hfind.
  change (Z.of_nat sizeof_MqrcHeader) with 28.
  rewrite Z.mod_small by lia.
  rewrite seekg_ok by (first [done | lia]).
  unfold read_vector. rewrite stream_read_inside by (simpl; first [done | lia]).
  cbn [gpos]. unfold payload_of in Hpayload.
  change (Z.of_nat sizeof_MqrcHeader) with 28 in Hpayload. rewrite Hpayload.
  assert (Hlen : length (encode_images imgs) = Z.to_nat (size record)).
  { rewrite <- Hpayload, length_take, length_drop. lia. }
  rewrite Hlen, Nat.sub_diag. cbn [replicate]. rewrite app_nil_r.
  assert (Hdec : readImages_decode (encode_images imgs) (size record) (packedImages r)
                 = Ok (size record, store_images 0 imgs (packedImages r))).
  { replace (size record) with (Z.of_nat (length (encode_images imgs))) by lia.
    apply readImages_decode_encoded; [done|lia]. }
  rewrite Hdec.
  cbn [mbind outcome_mbind outcome_bind].
  eexists _, _. split; [done|]. cbn [packedImages set_packedImages]. split_and!.
  - by destruct r.
  - intros i img Hi. by apply (store_images_hit imgs 0 _ i img).
  - intros k Hk. apply store_images_miss. intros i Hi. rewrite Z.add_0_l. by apply Hk.
Qed.

Example sample_images_encoded : sample_images = encode_images [sample_image].
Proof. vm_compute. reflexivity. Qed.

Lemma readImages_stores_record_witness :
  ∃ (r' : FfReader) (s' : ifstream),
    readImages sample (sample_reader sample false) stream_open = Ok (r', s') ∧
    r' = set_packedImages (packedImages r') (sample_reader sample false) ∧
    (∀ (i : nat) (img : PackedImage),
       [sample_image] !! i = Some img →
       packedImages r' !! image_offset [sample_image] i = Some img) ∧
    (∀ k : Z,
       (∀ i, (i < length [sample_image])%nat → image_offset [sample_image] i ≠ k) →
       packedImages r' !! k = packedImages (sample_reader sample false) !! k).
Proof.
  assert (H1 : findTocRecord_name (sample_reader sample false) imagesOptRecordName
               = Some {| recordId := 11; size := 1077; sizeAllocated := 1077;
                         offset := 2075 |}) by (vm_compute; reflexivity).
  assert (H2 : payload_inside sample
                 {| recordId := 11; size := 1077; sizeAllocated := 1077;
                    offset := 2075 |}) by (vm_compute; repeat split; discriminate).
  assert (H3 : payload_of sample
                 {| recordId := 11; size := 1077; sizeAllocated := 1077;
                    offset := 2075 |} = encode_images [sample_image])
    by (vm_compute; reflexivity).
  exact (readImages_stores_record sample (sample_reader sample false) stream_open
           _ [sample_image] H1 eq_refl H2 ltac:(simpl; lia) ltac:(simpl; lia) H3 sample_image_ok).
Defined.

Lemma readIndex_entry_encoded (pre post : list byte) (e : IndexEntry) :
  index_entry_ok e →
  readIndex_entry (pre ++ encode_index_entry e ++ post) (Z.of_nat (length pre))
  = Ok (entry_id e, entry_name e, entry_offset e, entry_size e,
        Z.of_nat (length (pre ++ encode_index_entry e))).
Proof.
  intros (Hid & Hname & Hoff & Hsz). unfold readIndex_entry, encode_index_entry.
  rewrite <- !app_assoc.
  next_u32. cbn [app].
  rewrite cstring_at_encoded by done. cbn [mbind outcome_mbind outcome_bind].
  replace (Z.of_nat (length (pre ++ u32 (entry_id e)))
           + (Z.of_nat (length (entry_name e)) + 1))
    with (Z.of_nat (length ((pre ++ u32 (entry_id e)) ++ entry_name e ++ [zero_byte])))
    by (rewrite !length_app; simpl; lia).
  change (entry_name e ++ zero_byte :: ?x) with (entry_name e ++ [zero_byte] ++ x).
  rewrite (app_assoc (entry_name e)), (app_assoc (pre ++ u32 (entry_id e))).
  do 2 next_u32.
  do 2 f_equal. by rewrite <- !app_assoc.
Qed.

Lemma readIndex_loop_encoded (es : list IndexEntry) :
  ∀ (pre post : list byte) (r : FfReader),
  Forall index_entry_ok es →
  readIndex_loop (pre ++ concat (encode_index_entry <$> es) ++ post) (length es)
    (Z.of_nat (length pre)) r = Ok r.
Proof.
  induction es as [|e es IH]; intros pre post r Hok; [done|].
  apply Forall_cons in Hok as [He Hok].
  cbn [length fmap list_fmap concat readIndex_loop]. rewrite <- app_assoc.
  rewrite readIndex_entry_encoded by done.
  cbn [mbind outcome_mbind outcome_bind].
  rewrite (app_assoc pre), IH by done. by rewrite readIndex_store_id.
Qed.

(** X11.  [readIndex] decodes an index entry (id, zero-terminated name,
    offset, size) to the values that were encoded and moves past it by
    [4 + strlen(name) + 1 + 8] bytes; on a payload of well-formed entries the
    loop runs to its end. *)
Theorem readIndex_decodes_entries (pre post : list byte) (e : IndexEntry)
    (es : list IndexEntry) (r : FfReader) :
  index_entry_ok e → Forall index_entry_ok es →
  readIndex_entry (pre ++ encode_index_entry e ++ post) (Z.of_nat (length pre))
  = Ok (entry_id e, entry_name e, entry_offset e, entry_size e,
        Z.of_nat (length pre) + 4 + (Z.of_nat (length (entry_name e)) + 1) + 8) ∧
  ∃ r', readIndex_loop (pre ++ concat (encode_index_entry <$> es) ++ post)
          (length es) (Z.of_nat (length pre)) r = Ok r'.
Proof.
  intros He Hes. split.
  - rewrite readIndex_entry_encoded by done. do 2 f_equal.
    unfold encode_index_entry. rewrite !length_app, !length_u32. simpl. lia.
  - exists r. by apply readIndex_loop_encoded.
Qed.

Lemma readIndex_decodes_entries_witness :
  readIndex_entry
    (u32 2 ++ encode_index_entry
                {| entry_id := 12; entry_name := bytes_of_string "B";
                   entry_offset := 0; entry_size := 1077 |} ++ [])
    (Z.of_nat (length (u32 2)))
  = Ok (12, bytes_of_string "B", 0, 1077,
        Z.of_nat (length (u32 2)) + 4
        + (Z.of_nat (length (bytes_of_string "B")) + 1) + 8) ∧
  ∃ r', readIndex_loop
          (u32 2 ++ concat (encode_index_entry <$>
             [ {| entry_id := RecordId_max; entry_name := bytes_of_string "ANIM";
                  entry_offset := 0; entry_size := 1077 |} ]) ++ [])
          1 (Z.of_nat (length (u32 2))) (FfReader_init sample_path) = Ok r'.
Proof.
  apply (readIndex_decodes_entries (u32 2) []
           {| entry_id := 12; entry_name := bytes_of_string "B";
              entry_offset := 0; entry_size := 1077 |}
           [ {| entry_id := RecordId_max; entry_name := bytes_of_string "ANIM";
                entry_offset := 0; entry_size := 1077 |} ]
           (FfReader_init sample_path)).
  - repeat constructor; try (vm_compute; congruence); try discriminate.
  - repeat constructor; try (vm_compute; congruence); try discriminate.
Defined.

Lemma readNameList_rejects_bad_record_witness :
  readNameList bad_record_file sample_after_toc stream_open
  = Throw WrongMqrcSignature.
Proof.
  apply (readNameList_rejects_bad_record bad_record_file sample_after_toc stream_open
           sample_record_2 sample_record_12 2).
  - reflexivity.
  - vm_compute. reflexivity.
  - vm_compute. discriminate.
  - vm_compute. lia.
  - vm_compute. discriminate.
  - intros i Hi. destruct i as [|[|i]]; [vm_compute; reflexivity.. | lia].
  - vm_compute. reflexivity.
  - vm_compute. discriminate.
  - vm_compute. discriminate.
  - vm_compute. discriminate.
Defined.

Lemma readNameList_restores_position_witness :
  ∃ namesList : TocRecord,
    findTocRecord sample_after_toc NameList = Some namesList ∧
    snd sample_after_names
    = {| gpos := offset namesList + 28 + 4
                 + 260 * names_count sample (offset namesList + 28);
         failbit := false |}.
Proof.
  apply (readNameList_restores_position sample sample_after_toc
           (fst sample_after_names) stream_open (snd sample_after_names)).
  - reflexivity.
  - vm_compute. reflexivity.
  - vm_compute. reflexivity.
Defined.

Lemma checkFileHeader_outcomes_witness :
  checkFileHeader sample stream_open = Ok {| gpos := 24; failbit := false |} ∧
  checkFileHeader bad_signature_file stream_open = Throw NotMqdbFile ∧
  checkFileHeader bad_version_file stream_open = Throw WrongVersion ∧
  checkFileHeader (take 5 bad_signature_file) stream_open = Throw NotMqdbFile ∧
  checkFileHeader (take 12 bad_version_file) stream_open = Throw WrongVersion.
Proof.
  assert (L1 : (12 ≤ length sample)%nat) by (vm_compute; lia).
  assert (L2 : (12 ≤ length bad_signature_file)%nat) by (vm_compute; lia).
  assert (L3 : (12 ≤ length bad_version_file)%nat) by (vm_compute; lia).
  assert (L4 : (4 ≤ length (take 5 bad_signature_file))%nat) by (vm_compute; lia).
  assert (L5 : (12 ≤ length (take 12 bad_version_file))%nat) by (vm_compute; lia).
  split_and!.
  - apply (proj2 (proj2 (proj2 (proj2 (checkFileHeader_outcomes sample) L1))
                    {| gpos := 24; failbit := false |})).
    vm_compute. split_and!; reflexivity.
  - apply (proj2 (proj1 (proj2 (checkFileHeader_outcomes bad_signature_file) L2))).
    vm_compute. discriminate.
  - apply (proj2 (proj1 (proj2 (proj2 (checkFileHeader_outcomes bad_version_file) L3)))).
    vm_compute. split; [reflexivity | discriminate].
  - apply (proj1 (checkFileHeader_outcomes (take 5 bad_signature_file)) L4).
    vm_compute. discriminate.
  - apply (proj2 (proj1 (proj2 (proj2 (checkFileHeader_outcomes
                                         (take 12 bad_version_file)) L5)))).
    vm_compute. split; [reflexivity | discriminate].
Defined.

Lemma ctor_open_and_header_errors_witness :
  FfReader_ctor (λ _, None) sample_path true = Throw CouldNotOpen ∧
  FfReader_ctor (fs_of bad_signature_file) sample_path true = Throw NotMqdbFile ∧
  FfReader_ctor (fs_of bad_version_file) sample_path true = Throw WrongVersion ∧
  FfReader_ctor (fs_of (take 5 bad_signature_file)) sample_path true
    = Throw NotMqdbFile ∧
  FfReader_ctor (fs_of (take 12 bad_version_file)) sample_path true
    = Throw WrongVersion.
Proof.
  assert (L2 : (12 ≤ length bad_signature_file)%nat) by (vm_compute; lia).
  assert (L3 : (12 ≤ length bad_version_file)%nat) by (vm_compute; lia).
  assert (L4 : (4 ≤ length (take 5 bad_signature_file))%nat) by (vm_compute; lia).
  assert (L5 : (12 ≤ length (take 12 bad_version_file))%nat) by (vm_compute; lia).
  split_and!.
  - apply (proj2 (proj1 (ctor_open_and_header_errors (λ _, None) sample_path true))).
    reflexivity.
  - apply (proj2 (proj1 (proj2 (proj1 (proj2 (ctor_open_and_header_errors
             (fs_of bad_signature_file) sample_path true))
             bad_signature_file (fs_of_path bad_signature_file)) L2))).
    vm_compute. discriminate.
  - apply (proj2 (proj2 (proj2 (proj1 (proj2 (ctor_open_and_header_errors
             (fs_of bad_version_file) sample_path true))
             bad_version_file (fs_of_path bad_version_file)) L3))).
    vm_compute. split; [reflexivity | discriminate].
  - apply (proj1 (proj1 (proj2 (ctor_open_and_header_errors
             (fs_of (take 5 bad_signature_file)) sample_path true))
             (take 5 bad_signature_file) (fs_of_path (take 5 bad_signature_file))) L4).
    vm_compute. discriminate.
  - apply (proj2 (proj2 (proj2 (proj1 (proj2 (ctor_open_and_header_errors
             (fs_of (take 12 bad_version_file)) sample_path true))
             (take 12 bad_version_file) (fs_of_path (take 12 bad_version_file))) L5))).
    vm_compute. split; [reflexivity | discriminate].
Defined.

Lemma omap_seq_lookup {A} (f : nat → option A) (es : list A) :
  ∀ k : nat,
  (∀ i, (i < length es)%nat → f (k + i)%nat = es !! i) →
  omap f (seq k (length es)) = es.
Proof.
  induction es as [|e es IH]; intros k H; [done|].
  cbn [length seq omap list_omap].
  pose proof (H O ltac:(simpl; lia)) as H0. rewrite Nat.add_0_r in H0.
  rewrite H0. cbn [lookup list_lookup]. f_equal.
  apply IH. intros i Hi. replace (S k + i)%nat with (k + S i)%nat by lia.
  apply (H (S i)). simpl. lia.
Qed.

(** The table [readTableOfContents] builds is determined by the file. *)
Lemma toc_holds_table (file : list byte) (toc : gmap Z TocRecord) :
  toc_holds file toc → toc = toc_table file.
Proof.
  intros (es & Hlen & Hes & Hnd & Hchar & _).
  assert (Hrec : toc_records file = es).
  { unfold toc_records. rewrite <- Hlen. apply omap_seq_lookup. intros i Hi.
    by apply Hes. }
  unfold toc_table. rewrite Hrec. apply map_eq. intros id. apply option_eq. intros e.
  rewrite Hchar, <- elem_of_list_to_map.
  - rewrite list_elem_of_fmap. split.
    + intros [He <-]. by exists e.
    + intros (e' & Heq & He'). injection Heq as -> ->. done.
  - by rewrite <- list_fmap_compose.
Qed.

Lemma readNameList_wellformed_Ok (file : list byte) (r : FfReader) (s : ifstream) :
  failbit s = false → names_wellformed file r = true →
  ∃ (r' : FfReader) (s' : ifstream), readNameList file r s = Ok (r', s').
Proof.
  intros Hf Hwf. unfold names_wellformed in Hwf. unfold readNameList.
  destruct (findTocRecord r NameList) as [namesList|]; [|discriminate].
  set (base := offset namesList + 28) in *. cbv zeta in Hwf.
  apply andb_true_iff in Hwf as [Hwf Hres]. apply andb_true_iff in Hwf as [Hoff Hin].
  apply Z.leb_le in Hoff, Hin.
  assert (Hn : 0 ≤ names_count file base) by apply le32_nonneg.
  rewrite forallb_forall in Hres.
  change (Z.of_nat sizeof_MqrcHeader) with 28. fold base.
  rewrite seekg_ok by (first [done | lia]).
  rewrite readUint32_file_inside by (simpl; first [done | lia]).
  cbn [gpos]. fold (names_count file base).
  pose proof (name_loop_fold file r base (Z.to_nat (names_count file base)) O
                (recordNames r)) as Hloop.
  replace (base + 4 + 260 * Z.of_nat 0) with (base + 4) in Hloop by lia.
  rewrite Hloop; clear Hloop.
  2: { unfold base. lia. }
  2: { simpl. lia. }
  2: { intros i Hi. apply Hres. apply in_seq. lia. }
  cbn [mbind outcome_mbind outcome_bind]. eauto.
Qed.

(** X14.  A container with a valid header, a table of contents inside the
    file with pairwise different ids, and a well-formed name list is never
    rejected: the constructor throws no error on it. *)
Theorem ctor_accepts_wellformed (fs : filesystem) (path : string) (b : bool)
    (file : list byte) :
  fs path = Some file →
  header_signature file = mqdbFileSignature →
  header_version file = mqdbFileVersion →
  toc_inside file → NoDup (toc_ids file) →
  names_wellformed file (set_tableOfContents (toc_table file) (FfReader_init path))
    = true →
  ∀ e : error, FfReader_ctor fs path b ≠ Throw e.
Proof.
  intros Hfs Hsig Hver Hin Hnd Hwf e.
  destruct (readTableOfContents_total file path Hin Hnd) as [r1 Hr1].
  destruct (readTableOfContents_ok file path r1 _ (proj1 Hin) Hr1) as [Hholds Hr1eq].
  rewrite <- (toc_holds_table file _ Hholds), <- Hr1eq in Hwf.
  destruct (readNameList_wellformed_Ok file r1
              {| gpos := toc_offset file + 4 + 16 * toc_count file; failbit := false |}
              eq_refl Hwf) as (r2 & s2 & Hr2).
  rewrite (ctor_stage_errors fs path b file Hfs), checkFileHeader_cases.
  destruct Hin as [Hfile Hin].
  destruct (Nat.ltb_spec (length file) 4); [lia|].
  apply Z.eqb_eq in Hsig, Hver. rewrite Hsig, Hver. cbn [negb].
  destruct (Nat.ltb_spec (length file) 12); [lia|].
  destruct (Nat.ltb_spec (length file) 24); [lia|].
  rewrite Nat.min_l by lia. change (Z.of_nat 24) with 24.
  cbn [mbind outcome_mbind outcome_bind]. rewrite Hr1.
  cbn [mbind outcome_mbind outcome_bind]. rewrite Hr2.
  cbn [mbind outcome_mbind outcome_bind].
  pose proof (readIndex_quiet file r2 s2) as Hq.
  destruct (readIndex file r2 s2) as [[r3 s3]| | |]; simpl; try done.
  destruct b; [|done].
  pose proof (readImages_quiet file r3 s3) as Hq'.
  destruct (readImages file r3 s3) as [[r4 s4]| | |]; simpl; done.
Qed.

Lemma ctor_accepts_wellformed_witness :
  names_wellformed sample_cut
    (set_tableOfContents (toc_table sample_cut) (FfReader_init sample_path)) = true ∧
  ∀ e : error, FfReader_ctor (fs_of sample_cut) sample_path true ≠ Throw e.
Proof.
  assert (H1 : toc_inside sample_cut) by (vm_compute; split; [lia | discriminate]).
  assert (H2 : NoDup (toc_ids sample_cut)).
  { apply (bool_decide_unpack _). vm_compute. exact I. }
  assert (H3 : header_signature sample_cut = mqdbFileSignature)
    by (vm_compute; reflexivity).
  assert (H4 : header_version sample_cut = mqdbFileVersion)
    by (vm_compute; reflexivity).
  assert (H5 : names_wellformed sample_cut
                 (set_tableOfContents (toc_table sample_cut) (FfReader_init sample_path))
               = true)
    by (vm_compute; reflexivity).
  split; [exact H5|].
  exact (ctor_accepts_wellformed (fs_of sample_cut) sample_path true sample_cut
           (fs_of_path sample_cut) H3 H4 H1 H2 H5).
Defined.
